(** * The Gset reader: text-to-graph parser and URL fetcher

    A shallow embedding of [reader.py] and [logging_utils.py], together with
    the parts of the Python runtime and of networkx that the two functions
    [read_data_from_url] and [convert_data_into_graph] call.

    - a Python [str] is a list of Unicode code points;
    - [str.split], the [[:-1]] slice, [enumerate], tuple unpacking and
      [int()] follow CPython; the Unicode tables [int()] consults for
      characters outside ASCII are fields of the [Runtime] class, like
      the interpreter's limit on the number of digits of a literal;
    - exceptions are the left summand of a sum; logging and the HTTP
      request are state passed through a [World];
    - [nx.Graph] is the pair of dictionaries networkx keeps. *)

From Stdlib Require Import ZArith NArith List String Ascii Bool Lia DecimalString.
From stdpp Require Import gmap.

Set Warnings "-clear-no-such-hyp".
Local Open Scope N_scope.

(** ** Python strings *)

Abbreviation str := (list N).

Definition LF : N := 10.
Definition SP : N := 32.

(** Literals: the text between the quotes of a Python literal, where the
    two characters backslash and n stand for the line feed. *)
Fixpoint py (s : string) : str :=
  match s with
  | EmptyString => []
  | String "\" (String "n" r) => LF :: py r
  | String c r => N_of_ascii c :: py r
  end.
Arguments py s%_string.

(** [s.split(sep)] for a separator of one character, which is what both
    call sites of the reader pass. *)
Fixpoint split (sep : N) (s : str) : list str :=
  match s with
  | [] => [[]]
  | c :: s' =>
      if c =? sep then [] :: split sep s'
      else match split sep s' with
           | seg :: segs => (c :: seg) :: segs
           | [] => [[c]]
           end
  end.

(** [l[:-1]] *)
Definition all_but_last {A} (l : list A) : list A := removelast l.

(** [enumerate(l)] *)
Fixpoint enumerate_from {A} (i : nat) (l : list A) : list (nat * A) :=
  match l with
  | [] => []
  | x :: l' => (i, x) :: enumerate_from (S i) l'
  end.
Definition enumerate {A} (l : list A) : list (nat * A) := enumerate_from 0 l.

(** [str(n)] for a non-negative integer *)
Definition str_of_nat (n : nat) : str :=
  py (NilZero.string_of_uint (Nat.to_uint n)).

(** ** Exceptions *)

Inductive value_error :=
| not_enough_values (expected got : nat)
| too_many_values (expected : nat)
| invalid_literal (s : str)
| exceeds_digit_limit (limit digits : nat).

Inductive exn :=
| ValueError (why : value_error)
| AttributeError (attribute : str)
| RequestException (what : str).

(** [a, b, c = l] *)
Definition unpack3 {A} (l : list A) : exn + (A * A * A) :=
  match l with
  | [a; b; c] => inr (a, b, c)
  | _ => if (length l <? 3)%nat
         then inl (ValueError (not_enough_values 3 (length l)))
         else inl (ValueError (too_many_values 3))
  end.

(** ** [int(s)] *)

(** What the interpreter is configured with and what its Unicode database
    says outside ASCII. [max_str_digits] is [sys.get_int_max_str_digits()],
    0 when the limit is off. *)
Class Runtime := {
  Py_UNICODE_ISSPACE : N -> bool;
  Py_UNICODE_TODECIMAL : N -> option N;
  max_str_digits : nat
}.

Definition Py_ISSPACE (c : N) : bool := (c =? 32) || ((9 <=? c) && (c <=? 13)).

Definition digit_value (c : N) : option N :=
  if (48 <=? c) && (c <=? 57) then Some (c - 48) else None.

Definition UNDERSCORE : N := 95.
Definition _PY_LONG_MAX_STR_DIGITS_THRESHOLD : nat := 640.

Fixpoint skip_spaces (s : str) : str :=
  match s with
  | c :: r => if Py_ISSPACE c then skip_spaces r else s
  | [] => []
  end.

(** The scan of [long_from_string_base]: digits, with single underscores
    between them. Returns the last character read, the number of digits,
    their value and the rest; [None] on a doubled underscore. *)
Fixpoint scan_digits (prev : N) (digits : nat) (acc : N) (s : str)
  : option (N * nat * N * str) :=
  match s with
  | c :: r =>
      if c =? UNDERSCORE then
        if prev =? UNDERSCORE then None else scan_digits c digits acc r
      else match digit_value c with
           | Some d => scan_digits c (S digits) (10 * acc + d) r
           | None => Some (prev, digits, acc, s)
           end
  | [] => Some (prev, digits, acc, [])
  end.

Section Int.
Context `{Runtime}.

Fixpoint transform_from (s : str) : str :=
  match s with
  | [] => []
  | ch :: rest =>
      if ch <? 127 then ch :: transform_from rest
      else if Py_UNICODE_ISSPACE ch then SP :: transform_from rest
      else match Py_UNICODE_TODECIMAL ch with
           | Some d => (48 + d) :: transform_from rest
           | None => [63]
           end
  end.

Definition _PyUnicode_TransformDecimalAndSpaceToASCII (s : str) : str :=
  if forallb (fun ch => ch <? 128) s then s else transform_from s.

(** [PyLong_FromString(buffer, &end, 10)] followed by the test that the
    whole buffer was read; [orig] is the string the error message shows. *)
Definition PyLong_FromString (orig buffer : str) : exn + Z :=
  let bad := inl (ValueError (invalid_literal orig)) in
  let s0 := skip_spaces buffer in
  let '(negative, s1) :=
    match s0 with
    | 43 :: r => (false, r)
    | 45 :: r => (true, r)
    | _ => (false, s0)
    end in
  match s1 with
  | 95 :: _ => bad
  | _ =>
      match scan_digits 0 0 0 s1 with
      | None => bad
      | Some (prev, digits, value, rest) =>
          if prev =? UNDERSCORE then bad
          else if (_PY_LONG_MAX_STR_DIGITS_THRESHOLD <? digits)%nat
                  && (0 <? max_str_digits)%nat
                  && (max_str_digits <? digits)%nat
          then inl (ValueError (exceeds_digit_limit max_str_digits digits))
          else if (digits =? 0)%nat then bad
          else match skip_spaces rest with
               | [] => inr (if negative then (- Z.of_N value)%Z else Z.of_N value)
               | _ :: _ => bad
               end
      end
  end.

(** [int(s)] *)
Definition int (s : str) : exn + Z :=
  PyLong_FromString s (_PyUnicode_TransformDecimalAndSpaceToASCII s).
End Int.

(** ** The world outside: loggers, the error stream, the network *)

(** A [logging.Logger] as far as the reader can tell: its own level and the
    number of stream handlers attached to it. Loggers live in the
    [logging] module's registry under their name; the parent of a module
    logger is the root logger, whose level decides when the logger's own
    is [NOTSET]. Handlers of the root logger and [logging.disable] are
    outside the model. *)
Record Logger := { level : N; handlers : nat }.

Definition NOTSET : N := 0.
Definition DEBUG : N := 10.
Definition INFO : N := 20.
Definition WARNING : N := 30.

Record Response := { status_code : Z; text : str }.

Record World := {
  loggers : gmap str Logger;      (* logging.Logger.manager.loggerDict *)
  root_level : N;                 (* logging.root.level *)
  stderr : list str;              (* lines written by stream handlers *)
  requests : list str;            (* URLs of the GET requests sent so far *)
  internet : nat -> str -> exn + Response
                                  (* what the n-th request, to a URL, meets *)
}.

Definition with_loggers (ls : gmap str Logger) (w : World) : World :=
  {| loggers := ls; root_level := root_level w; stderr := stderr w;
     requests := requests w; internet := internet w |}.
Definition with_stderr (out : list str) (w : World) : World :=
  {| loggers := loggers w; root_level := root_level w; stderr := out;
     requests := requests w; internet := internet w |}.
Definition with_requests (rs : list str) (w : World) : World :=
  {| loggers := loggers w; root_level := root_level w; stderr := stderr w;
     requests := rs; internet := internet w |}.

(** ** Computations: state and exceptions *)

Definition M (A : Type) : Type := World -> (exn + A) * World.

Definition ret {A} (a : A) : M A := fun w => (inr a, w).
Definition raise {A} (e : exn) : M A := fun w => (inl e, w).
Definition bind {A B} (c : M A) (k : A -> M B) : M B :=
  fun w => match c w with
           | (inr a, w') => k a w'
           | (inl e, w') => (inl e, w')
           end.
Definition lift {A} (r : exn + A) : M A :=
  match r with inr a => ret a | inl e => raise e end.

Notation "x <- c ;; k" := (bind c (fun x => k))
  (at level 100, c at next level, right associativity).
Notation "c ;; k" := (bind c (fun _ => k))
  (at level 100, right associativity).

(** The value a computation returns, or the exception it raises. *)
Definition outcome {A} (c : M A) (w : World) : exn + A := fst (c w).
(** The world it leaves. *)
Definition after {A} (c : M A) (w : World) : World := snd (c w).

(** ** logging *)

(** [logging.getLogger(name)]: the registered logger, or a new one. *)
Definition getLogger (name : str) (w : World) : Logger :=
  default {| level := NOTSET; handlers := 0 |} (loggers w !! name).

Definition getEffectiveLevel (name : str) (w : World) : N :=
  let l := getLogger name w in
  if level l =? NOTSET then root_level w else level l.

Definition isEnabledFor (name : str) (lvl : N) (w : World) : bool :=
  getEffectiveLevel name w <=? lvl.

(** [logger.log(lvl, msg)]: every stream handler of the logger writes the
    message as one line. *)
Definition log (name : str) (lvl : N) (msg : str) : M unit := fun w =>
  (inr tt,
   if isEnabledFor name lvl w
   then with_stderr (stderr w ++ replicate (handlers (getLogger name w)) msg) w
   else w).

(** *** logging_utils.py *)

Definition get_logger_handle (name : str) (lvl : N) : M str := fun w =>
  let logger := getLogger name w in
  let logger := {| level := lvl; handlers := S (handlers logger) |} in
  (inr name, with_loggers (<[name := logger]> (loggers w)) w).


(** ** networkx.Graph *)

(** The two dictionaries of a graph. Every attribute dictionary is empty
    here, so the dictionary of a node's neighbours is the set of its
    keys, and so is the node dictionary. Nodes are Python integers. *)
Record Graph := { _node : gset Z; _adj : gmap Z (gset Z) }.

Definition empty_graph : Graph := {| _node := ∅; _adj := ∅ |}.

Definition neighbors (adj : gmap Z (gset Z)) (n : Z) : gset Z :=
  default ∅ (adj !! n).

Definition add_node_if_missing (u : Z) (g : Graph) : Graph :=
  if decide (u ∈ _node g) then g
  else {| _node := {[u]} ∪ _node g; _adj := <[u := ∅]> (_adj g) |}.

Definition add_edge (u v : Z) (g : Graph) : Graph :=
  let g := add_node_if_missing u g in
  let g := add_node_if_missing v g in
  let adj := _adj g in
  let adj := <[u := {[v]} ∪ neighbors adj u]> adj in
  let adj := <[v := {[u]} ∪ neighbors adj v]> adj in
  {| _node := _node g; _adj := adj |}.

Definition nodes (g : Graph) : gset Z := _node g.

Definition has_edge (g : Graph) (u v : Z) : bool :=
  bool_decide (v ∈ neighbors (_adj g) u).

(** The edges, each once, written with the smaller endpoint first. *)
Definition edges (g : Graph) : gset (Z * Z) :=
  list_to_set
    (map_to_list (_adj g) ≫= λ '(u, nbrs),
       (λ v, (u, v)) <$> filter (λ v, (u ≤ v)%Z) (elements nbrs)).

Definition number_of_nodes (g : Graph) : nat := size (_node g).

Definition degree (adj : gmap Z (gset Z)) (n : Z) : nat :=
  (size (neighbors adj n) + (if decide (n ∈ neighbors adj n) then 1 else 0))%nat.

(** [int(self.size())]: half the sum of the degrees. *)
Definition number_of_edges (g : Graph) : nat :=
  (sum_list_with (λ '(n, _), degree (_adj g) n) (map_to_list (_adj g)) / 2)%nat.

(** ** reader.py *)

Section Reader.
Context `{Runtime}.
(** [__name__], the name the module was loaded under. *)
Variable module_name : str.

(** [logger = get_logger_handle(__name__)], run when the module loads. *)
Definition load_module : M str := get_logger_handle module_name INFO.

Definition logger : str := module_name.

Definition requests_get (url : str) : M Response := fun w =>
  (internet w (length (requests w)) url, with_requests (requests w ++ [url]) w).

Definition read_data_from_url (url : str) : M (option str) :=
  resp <- requests_get url ;;
  if (status_code resp =? 200)%Z then ret (Some (text resp))
  else ret None.

(** The body of the [for] loop, over what [enumerate] still has to give. *)
Fixpoint loop (items : list (nat * str)) (g : Graph) : M Graph :=
  match items with
  | [] => ret g
  | (i, line) :: items' =>
      if (i =? 0)%nat then
        t <- lift (unpack3 (split SP line)) ;;
        let '(num_nodes, num_edges, _) := t in
        log logger INFO (py "Expect number of nodes " ++ num_nodes
                         ++ py " and edges " ++ num_edges) ;;
        loop items' g
      else
        t <- lift (unpack3 (split SP line)) ;;
        let '(u, v, w) := t in
        a <- lift (int u) ;;
        b <- lift (int v) ;;
        let g := add_edge (a - 1) (b - 1) g in
        log logger DEBUG (py "Added an edge from u: " ++ u ++ py " to  v: " ++ v
                          ++ py " with weight " ++ w) ;;
        loop items' g
  end.

Definition convert_data_into_graph (data : str) : M Graph :=
  let record_list := split LF data in
  g <- loop (enumerate (all_but_last record_list)) empty_graph ;;
  log logger INFO (py "Total number of nodes: " ++ str_of_nat (number_of_nodes g)) ;;
  log logger INFO (py "Total number of edges: " ++ str_of_nat (number_of_edges g)) ;;
  ret g.

Definition URL : str := py "https://web.stanford.edu/~yyye/yyye/Gset/G15".

(** The script: a missing body has no [split]. *)
Definition main : M unit :=
  data <- read_data_from_url URL ;;
  match data with
  | Some data => g <- convert_data_into_graph data ;; ret tt
  | None => raise (AttributeError (py "split"))
  end.
End Reader.

(** ** Vocabulary of the specification *)

(** [sep.join(segs)]: every text is the join of its segments. *)
Fixpoint join (sep : N) (segs : list str) : str :=
  match segs with
  | [] => []
  | [s] => s
  | s :: rest => s ++ sep :: join sep rest
  end.

(** The segments the loop sees, and those after the header. *)
Definition processed (data : str) : list str := all_but_last (split LF data).
Definition edge_lines (data : str) : list str := tail (processed data).

(** The edge as networkx files it: smaller endpoint first. *)
Definition undirected (p : Z * Z) : Z * Z := (Z.min p.1 p.2, Z.max p.1 p.2).

(** 1-indexed endpoints to 0-indexed nodes. *)
Definition to_nodes (p : Z * Z) : Z * Z := ((p.1 - 1)%Z, (p.2 - 1)%Z).

Definition add_edges (es : list (Z * Z)) (g : Graph) : Graph :=
  foldl (λ g e, add_edge e.1 e.2 g) g es.

(** A decimal numeral, from its digits, and the number it writes. *)
Definition numeral (ds : list N) : str := (λ d, 48 + d) <$> ds.
Definition numeral_value (acc : N) (ds : list N) : N :=
  foldl (λ acc d, 10 * acc + d) acc ds.

(** The degree of a node whose neighbours are [s], and the sum the edge
    count halves. *)
Definition weight (n : Z) (s : gset Z) : nat :=
  (size s + (if decide (n ∈ s) then 1 else 0))%nat.
Definition total_degree (adj : gmap Z (gset Z)) : nat :=
  sum_list_with (λ '(n, s), weight n s) (map_to_list adj).

(** What a graph built by [add_edge] satisfies. *)
Record consistent (g : Graph) : Prop := {
  consistent_nodes : dom (_adj g) = _node g;
  consistent_symmetric : ∀ u v, v ∈ neighbors (_adj g) u → u ∈ neighbors (_adj g) v
}.

Section Vocabulary.
Context `{Runtime}.
Variable module_name : str.

(** What the function does with the segments it keeps. *)
Definition run_segments (segments : list str) : M Graph :=
  g <- loop module_name (enumerate segments) empty_graph ;;
  log (logger module_name) INFO
    (py "Total number of nodes: " ++ str_of_nat (number_of_nodes g)) ;;
  log (logger module_name) INFO
    (py "Total number of edges: " ++ str_of_nat (number_of_edges g)) ;;
  ret g.

(** Two calls in a row on the same text. *)
Definition twice (data : str) : M (Graph * Graph) :=
  g1 <- convert_data_into_graph module_name data ;;
  g2 <- convert_data_into_graph module_name data ;;
  ret (g1, g2).

Definition is_int (s : str) : bool :=
  match int s with inr _ => true | inl _ => false end.

Definition three_tokens (line : str) : bool :=
  bool_decide (length (split SP line) = 3%nat).

Definition edge_line_ok (line : str) : bool :=
  match split SP line with
  | [u; v; _] => is_int u && is_int v
  | _ => false
  end.

(** Well-formed: every processed line has three tokens, and the first
    two of an edge line are integers. *)
Definition well_formed (data : str) : bool :=
  match processed data with
  | [] => true
  | header :: rest => three_tokens header && forallb edge_line_ok rest
  end.

(** Malformed, for the line at index [i] of the processed ones. *)
Definition malformed (i : nat) (line : str) : Prop :=
  length (split SP line) ≠ 3%nat ∨
  (i ≠ 0%nat ∧ ∃ u v w, split SP line = [u; v; w] ∧
                        (is_int u = false ∨ is_int v = false)).

(** The endpoints an edge line states, as the loop reads them. *)
Definition endpoints_of_line (line : str) : exn + (Z * Z) :=
  match unpack3 (split SP line) with
  | inl e => inl e
  | inr (u, v, _) =>
      match int u with
      | inl e => inl e
      | inr a => match int v with
                 | inl e => inl e
                 | inr b => inr (a, b)
                 end
      end
  end.

Fixpoint endpoints_of_lines (lines : list str) : exn + list (Z * Z) :=
  match lines with
  | [] => inr []
  | line :: lines' =>
      match endpoints_of_line line with
      | inl e => inl e
      | inr p => match endpoints_of_lines lines' with
                 | inl e => inl e
                 | inr ps => inr (p :: ps)
                 end
      end
  end.

(** The (u, v) pairs of the edge lines that parse. *)
Definition parsed_pairs (data : str) : list (Z * Z) :=
  omap (λ line, match endpoints_of_line line with
                | inr p => Some p
                | inl _ => None
                end) (edge_lines data).

(** The function as a whole, without its log. *)
Definition parse (data : str) : exn + Graph :=
  match processed data with
  | [] => inr empty_graph
  | header :: rest =>
      match unpack3 (split SP header) with
      | inl e => inl e
      | inr _ =>
          match endpoints_of_lines rest with
          | inl e => inl e
          | inr ps => inr (add_edges (to_nodes <$> ps) empty_graph)
          end
      end
  end.
End Vocabulary.

(** ** An interpreter and a world to run examples in *)

(** The tables agree with CPython's on the code points below 256. *)
Definition latin1 : Runtime := {|
  Py_UNICODE_ISSPACE c := (c =? 133) || (c =? 160);
  Py_UNICODE_TODECIMAL c := None;
  max_str_digits := 4300
|}.

Definition offline : World := {|
  loggers := ∅; root_level := WARNING; stderr := []; requests := [];
  internet := λ _ _, inl (RequestException (py "ConnectionError"))
|}.

(** The world once [reader] has been imported. *)
Definition imported : World := after (load_module (py "reader")) offline.

(** A world whose every request is answered with [resp]. *)
Definition serving (resp : Response) : World := {|
  loggers := ∅; root_level := WARNING; stderr := []; requests := [];
  internet := λ _ _, inr resp
|}.

Definition not_found : Response := {| status_code := 404; text := py "Not Found" |}.
Definition found : Response := {| status_code := 200; text := py "3 2 0\n1 2 5\n2 3 7\n" |}.

(** ** Vocabulary for the log and for the script *)

Definition CR : N := 13.

(** The number of times a character occurs in a text. *)
Definition occurrences (c : N) (s : str) : nat := length (filter (λ x, x = c) s).

(** The messages of the loop, for a line that splits into three tokens. *)
Definition header_message (line : str) : str :=
  match split SP line with
  | [num_nodes; num_edges; _] =>
      py "Expect number of nodes " ++ num_nodes ++ py " and edges " ++ num_edges
  | _ => []
  end.

Definition edge_message (line : str) : str :=
  match split SP line with
  | [u; v; w] =>
      py "Added an edge from u: " ++ u ++ py " to  v: " ++ v
      ++ py " with weight " ++ w
  | _ => []
  end.

Definition totals_messages (g : Graph) : list (N * str) :=
  [(INFO, py "Total number of nodes: " ++ str_of_nat (number_of_nodes g));
   (INFO, py "Total number of edges: " ++ str_of_nat (number_of_edges g))].

(** What a logger writes for a list of messages, each with its level. *)
Definition written (name : str) (w : World) (events : list (N * str)) : list str :=
  events ≫= λ '(lvl, msg),
    if isEnabledFor name lvl w
    then replicate (handlers (getLogger name w)) msg
    else [].


Section LogVocabulary.
Context `{Runtime}.

(** The messages the loop passes to its logger, up to the line that
    raises. *)
Fixpoint loop_log (items : list (nat * str)) : list (N * str) :=
  match items with
  | [] => []
  | (i, line) :: items' =>
      if (i =? 0)%nat then
        match unpack3 (split SP line) with
        | inl _ => []
        | inr _ => (INFO, header_message line) :: loop_log items'
        end
      else
        match endpoints_of_line line with
        | inl _ => []
        | inr _ => (DEBUG, edge_message line) :: loop_log items'
        end
  end.

(** The messages of a call. *)
Definition convert_log (data : str) : list (N * str) :=
  loop_log (enumerate (processed data))
  ++ match parse data with
     | inr g => totals_messages g
     | inl _ => []
     end.
End LogVocabulary.

(** The world once [reader] has been imported and its logger set to
    [DEBUG]. *)
Definition verbose : World := after (get_logger_handle (py "reader") DEBUG) imported.

(** Closes a decidable goal about concrete texts. *)
Ltac decided := apply (bool_decide_unpack _); vm_compute; exact I.

(** * Properties *)

(** ** Splitting and joining *)

Section Split.
Variable sep : N.

Lemma split_not_nil (s : str) : split sep s ≠ [].
Proof.
  destruct s as [|c s]; simpl; [discriminate|].
  destruct (c =? sep); [discriminate|].
  destruct (split sep s); discriminate.
Qed.

Lemma split_without_sep (s : str) : sep ∉ s → split sep s = [s].
Proof.
  induction s as [|c s IH]; intros Hs; [reflexivity|].
  simpl. destruct (N.eqb_spec c sep) as [->|Hc].
  - exfalso. apply Hs. left.
  - rewrite IH; [reflexivity|]. intros Hin. apply Hs. by right.
Qed.

Lemma split_app (a b : str) :
  split sep (a ++ sep :: b) = split sep a ++ split sep b.
Proof.
  induction a as [|c a IH]; simpl.
  - by rewrite N.eqb_refl.
  - destruct (c =? sep); rewrite IH; [reflexivity|].
    pose proof (split_not_nil a) as Hne.
    destruct (split sep a); [done | reflexivity].
Qed.

Lemma split_join (segs : list str) (last : str) :
  Forall (λ s, sep ∉ s) segs → sep ∉ last →
  split sep (join sep (segs ++ [last])) = segs ++ [last].
Proof.
  intros Hsegs Hlast. induction Hsegs as [|s segs Hs _ IH].
  - simpl. by apply split_without_sep.
  - rewrite <- app_comm_cons.
    destruct (segs ++ [last]) as [|s' rest] eqn:E.
    { by destruct segs. }
    change (join sep (s :: s' :: rest)) with (s ++ sep :: join sep (s' :: rest)).
    rewrite split_app, IH, split_without_sep by done. reflexivity.
Qed.

Lemma join_split (s : str) : join sep (split sep s) = s.
Proof.
  induction s as [|c s IH]; [reflexivity|].
  simpl. destruct (N.eqb_spec c sep) as [->|Hc].
  - pose proof (split_not_nil s) as Hne.
    destruct (split sep s); [done|]. simpl in *. by rewrite IH.
  - pose proof (split_not_nil s) as Hne.
    destruct (split sep s) as [|seg [|seg' segs]]; [done| |];
      simpl in *; by rewrite <- IH.
Qed.

Lemma split_segments_without_sep (s : str) :
  Forall (λ seg, sep ∉ seg) (split sep s).
Proof.
  induction s as [|c s IH]; simpl.
  - constructor; [|constructor]. by intros ?%elem_of_nil.
  - destruct (N.eqb_spec c sep) as [->|Hc].
    + constructor; [|done]. by intros ?%elem_of_nil.
    + destruct (split sep s) as [|seg segs]; inversion IH; subst.
      * constructor; [|constructor].
        intros [?|?%elem_of_nil]%elem_of_cons; done.
      * constructor; [|done].
        intros [?|?]%elem_of_cons; done.
Qed.
End Split.

Lemma processed_join (segs : list str) (last : str) :
  Forall (λ s, LF ∉ s) segs → LF ∉ last →
  processed (join LF (segs ++ [last])) = segs.
Proof.
  intros Hsegs Hlast. unfold processed, all_but_last.
  rewrite split_join by done. apply removelast_last.
Qed.

Lemma processed_without_newline (data : str) : LF ∉ data → processed data = [].
Proof.
  intros Hdata. unfold processed. by rewrite split_without_sep.
Qed.

(** Every text is some segments and a last one, joined by line feeds. *)
Lemma text_is_join (data : str) :
  ∃ segs last, data = join LF (segs ++ [last]) ∧
               Forall (λ s, LF ∉ s) segs ∧ LF ∉ last.
Proof.
  pose proof (split_not_nil LF data) as Hne.
  pose proof (split_segments_without_sep LF data) as Hall.
  destruct (exists_last Hne) as (segs & last & E).
  exists segs, last. rewrite <- E, join_split. split; [done|].
  rewrite E in Hall. apply Forall_app in Hall as [? Hl].
  split; [done|]. by inversion Hl.
Qed.

(** ** [int] on decimal numerals *)

Section IntFacts.
Context `{Runtime}.

Lemma skip_spaces_nonspace c r :
  Py_ISSPACE c = false → skip_spaces (c :: r) = c :: r.
Proof. intros Hc. simpl. by rewrite Hc. Qed.

Lemma digit_value_numeral d : d < 10 → digit_value (48 + d) = Some d.
Proof.
  intros Hd. unfold digit_value.
  destruct (N.leb_spec 48 (48 + d)); [|lia].
  destruct (N.leb_spec (48 + d) 57); [|lia].
  simpl. f_equal. lia.
Qed.

Lemma scan_digits_numeral ds prev n acc :
  Forall (λ d, d < 10) ds → prev ≠ UNDERSCORE →
  ∃ prev', prev' ≠ UNDERSCORE ∧
    scan_digits prev n acc (numeral ds)
    = Some (prev', (n + length ds)%nat, numeral_value acc ds, []).
Proof.
  intros Hds. revert prev n acc.
  induction Hds as [|d ds Hd _ IH]; intros prev n acc Hprev.
  - exists prev. split; [done|]. simpl. by rewrite Nat.add_0_r.
  - unfold numeral. rewrite fmap_cons. fold (numeral ds). cbn [scan_digits].
    cbv beta in Hd.
    assert (Hne : 48 + d ≠ UNDERSCORE) by (unfold UNDERSCORE; lia).
    destruct (N.eqb_spec (48 + d) UNDERSCORE) as [|_]; [done|].
    rewrite digit_value_numeral by done.
    destruct (IH (48 + d) (S n) (10 * acc + d) Hne) as (prev' & Hp & ->).
    exists prev'. split; [done|]. cbn [length].
    by rewrite Nat.add_succ_r.
Qed.

Lemma numeral_ascii ds :
  Forall (λ d, d < 10) ds → forallb (λ ch, ch <? 128) (numeral ds) = true.
Proof.
  induction 1 as [|d ds Hd _ IH]; [done|].
  unfold numeral. rewrite fmap_cons. cbn [forallb]. fold (numeral ds).
  rewrite IH, andb_true_r. cbv beta in Hd. apply N.ltb_lt. lia.
Qed.

(** A token of one to 640 ASCII digits is an integer, the one it writes. *)
Lemma int_numeral ds :
  Forall (λ d, d < 10) ds → ds ≠ [] → (length ds ≤ 640)%nat →
  int (numeral ds) = inr (Z.of_N (numeral_value 0 ds)).
Proof.
  intros Hds Hne Hlen. unfold int, _PyUnicode_TransformDecimalAndSpaceToASCII.
  rewrite numeral_ascii by done. unfold PyLong_FromString.
  destruct (scan_digits_numeral ds 0 0 0 Hds) as (prev' & Hp & Hscan);
    [unfold UNDERSCORE; lia|].
  destruct ds as [|d ds]; [done|].
  inversion Hds as [|? ? Hd Hds']; subst. cbv beta in Hd.
  assert (Hcases : d = 0 ∨ d = 1 ∨ d = 2 ∨ d = 3 ∨ d = 4 ∨ d = 5 ∨ d = 6 ∨
                   d = 7 ∨ d = 8 ∨ d = 9) by lia.
  unfold numeral in *. rewrite fmap_cons in *.
  destruct (N.eqb_spec prev' UNDERSCORE) as [|_]; [done|].
  assert (Hthr : (_PY_LONG_MAX_STR_DIGITS_THRESHOLD <? 0 + length (d :: ds))%nat = false).
  { apply Nat.ltb_ge. unfold _PY_LONG_MAX_STR_DIGITS_THRESHOLD. simpl in *. lia. }
  destruct_or!; subst d;
    match goal with
    | |- context [48 + ?k :: _] =>
        let c := eval vm_compute in (48 + k) in change (48 + k) with c in *
    end;
    rewrite skip_spaces_nonspace by reflexivity;
    cbv beta iota zeta; rewrite Hscan; cbv beta iota zeta;
    rewrite (proj2 (N.eqb_neq _ _)) by done;
    rewrite Hthr; reflexivity.
Qed.
End IntFacts.

(** ** Graphs *)

Section GraphFacts.
Implicit Types (g : Graph) (adj : gmap Z (gset Z)) (u v n : Z).

Lemma neighbors_insert adj k (s : gset Z) n :
  neighbors (<[k := s]> adj) n = if decide (k = n) then s else neighbors adj n.
Proof.
  unfold neighbors. rewrite lookup_insert.
  destruct (decide (k = n)); reflexivity.
Qed.

Lemma neighbors_not_in_dom adj n : n ∉ dom adj → neighbors adj n = ∅.
Proof.
  intros Hn. unfold neighbors.
  apply not_elem_of_dom in Hn. by rewrite Hn.
Qed.

Lemma elem_of_neighbors_dom adj n v : v ∈ neighbors adj n → n ∈ dom adj.
Proof.
  unfold neighbors. intros Hv. apply elem_of_dom.
  destruct (adj !! n); [eauto | set_solver].
Qed.

Lemma elem_of_edges g a b :
  (a, b) ∈ edges g ↔ (a ≤ b)%Z ∧ b ∈ neighbors (_adj g) a.
Proof.
  unfold edges. rewrite elem_of_list_to_set, list_elem_of_bind. split.
  - intros ([u nbrs] & Hin & Hm).
    apply elem_of_map_to_list in Hm.
    apply list_elem_of_fmap in Hin as (v & [= -> ->] & Hv).
    apply list_elem_of_filter in Hv as [Hle Hv].
    apply elem_of_elements in Hv.
    unfold neighbors. by rewrite Hm.
  - intros [Hle Hb]. unfold neighbors in Hb.
    destruct (_adj g !! a) as [nbrs|] eqn:E; [|set_solver].
    exists (a, nbrs). split; [|by apply elem_of_map_to_list].
    apply list_elem_of_fmap. exists b. split; [done|].
    apply list_elem_of_filter. split; [done|]. by apply elem_of_elements.
Qed.

Lemma add_node_if_missing_dom u g :
  dom (_adj g) = _node g →
  dom (_adj (add_node_if_missing u g)) = _node (add_node_if_missing u g).
Proof.
  intros Hdom. unfold add_node_if_missing.
  destruct (decide (u ∈ _node g)); [done|].
  simpl. rewrite dom_insert_L. by rewrite Hdom.
Qed.

Lemma add_node_if_missing_nodes u g :
  _node (add_node_if_missing u g) = {[u]} ∪ _node g.
Proof.
  unfold add_node_if_missing.
  destruct (decide (u ∈ _node g)); [set_solver | done].
Qed.

Lemma add_node_if_missing_neighbors u g n :
  dom (_adj g) = _node g →
  neighbors (_adj (add_node_if_missing u g)) n = neighbors (_adj g) n.
Proof.
  intros Hdom. unfold add_node_if_missing.
  destruct (decide (u ∈ _node g)) as [|Hu]; [done|].
  simpl. rewrite neighbors_insert.
  destruct (decide (u = n)) as [<-|]; [|done].
  rewrite neighbors_not_in_dom; [done|]. by rewrite Hdom.
Qed.

Lemma add_edge_nodes u v g : nodes (add_edge u v g) = {[u; v]} ∪ nodes g.
Proof.
  unfold nodes, add_edge. simpl.
  rewrite !add_node_if_missing_nodes. set_solver.
Qed.

Lemma add_edge_dom u v g :
  dom (_adj g) = _node g → dom (_adj (add_edge u v g)) = _node (add_edge u v g).
Proof.
  intros Hdom. unfold add_edge. simpl.
  rewrite !dom_insert_L.
  rewrite (add_node_if_missing_dom v), !add_node_if_missing_nodes;
    [set_solver|].
  by apply add_node_if_missing_dom.
Qed.

Lemma add_edge_neighbors u v g n :
  dom (_adj g) = _node g →
  neighbors (_adj (add_edge u v g)) n =
    neighbors (_adj g) n
    ∪ (if decide (n = u) then {[v]} else ∅)
    ∪ (if decide (n = v) then {[u]} else ∅).
Proof.
  intros Hdom. unfold add_edge. simpl.
  pose proof (add_node_if_missing_dom u g Hdom) as Hdom'.
  rewrite !neighbors_insert.
  rewrite !(add_node_if_missing_neighbors v) by done.
  rewrite !(add_node_if_missing_neighbors u) by done.
  repeat case_decide; subst; try done; set_solver.
Qed.

Lemma add_edge_consistent u v g : consistent g → consistent (add_edge u v g).
Proof.
  intros [Hdom Hsym]. split; [by apply add_edge_dom|].
  intros a b. rewrite !add_edge_neighbors by done.
  intros Hb. repeat case_decide; subst; set_solver.
Qed.

Lemma add_edge_edges u v g :
  dom (_adj g) = _node g →
  edges (add_edge u v g) = {[undirected (u, v)]} ∪ edges g.
Proof.
  intros Hdom. apply set_eq. intros [a b].
  rewrite elem_of_union, elem_of_singleton, !elem_of_edges.
  rewrite add_edge_neighbors by done.
  unfold undirected. simpl.
  split.
  - intros [Hle Hb].
    repeat case_decide; subst;
      rewrite ?elem_of_union, ?elem_of_singleton in Hb;
      set_unfold; destruct_or?; subst; try (right; done); try done;
      left; f_equal; lia.
  - intros [[= -> ->] | [Hle Hb]].
    + split; [lia|].
      destruct (Z.min_spec u v) as [[? ->]|[? ->]],
               (Z.max_spec u v) as [[? ->]|[? ->]]; try lia;
        repeat case_decide; set_solver.
    + split; [done|]. set_solver.
Qed.

Lemma empty_graph_consistent : consistent empty_graph.
Proof. split; [set_solver|]. intros u v. unfold neighbors. set_solver. Qed.

Lemma add_edges_consistent es g : consistent g → consistent (add_edges es g).
Proof.
  revert g. induction es as [|e es IH]; intros g Hg; [done|].
  simpl. apply IH. by apply add_edge_consistent.
Qed.

Lemma add_edges_nodes es g :
  nodes (add_edges es g) = list_to_set (es ≫= λ e, [e.1; e.2]) ∪ nodes g.
Proof.
  revert g. induction es as [|e es IH]; intros g.
  - set_solver.
  - change (add_edges (e :: es) g) with (add_edges es (add_edge e.1 e.2 g)).
    rewrite IH, add_edge_nodes. set_solver.
Qed.

Lemma add_edges_edges es g :
  consistent g →
  edges (add_edges es g) = list_to_set (undirected <$> es) ∪ edges g.
Proof.
  revert g. induction es as [|e es IH]; intros g Hg.
  - set_solver.
  - change (add_edges (e :: es) g) with (add_edges es (add_edge e.1 e.2 g)).
    rewrite IH by by apply add_edge_consistent.
    rewrite add_edge_edges by apply Hg. destruct e. set_solver.
Qed.

Lemma empty_graph_edges : edges empty_graph = ∅.
Proof. reflexivity. Qed.
End GraphFacts.

(** ** Counting edges *)

Section Counting.
Implicit Types (g : Graph) (adj : gmap Z (gset Z)) (u v n : Z).
Local Open Scope nat_scope.

Lemma sum_list_with_agree {A} (f h : A → nat) (l : list A) :
  (∀ x, x ∈ l → f x = h x) → sum_list_with f l = sum_list_with h l.
Proof.
  induction l as [|x l IH]; intros Hfh; [reflexivity|].
  simpl. rewrite Hfh by left. rewrite IH; [reflexivity|].
  intros y Hy. apply Hfh. by right.
Qed.

Lemma weight_empty n : weight n ∅ = 0.
Proof.
  unfold weight. rewrite size_empty. case_decide; [set_solver | lia].
Qed.

Lemma degree_weight adj n : degree adj n = weight n (neighbors adj n).
Proof. reflexivity. Qed.

Lemma degree_sum adj :
  sum_list_with (λ '(n, _), degree adj n) (map_to_list adj) = total_degree adj.
Proof.
  apply sum_list_with_agree. intros [n s] Hin.
  apply elem_of_map_to_list in Hin.
  rewrite degree_weight. unfold neighbors. by rewrite Hin.
Qed.

Lemma total_degree_insert adj k (s : gset Z) :
  total_degree (<[k := s]> adj) + degree adj k = total_degree adj + weight k s.
Proof.
  rewrite degree_weight. unfold neighbors, total_degree.
  destruct (adj !! k) as [old|] eqn:E.
  - rewrite <- (insert_delete_id adj k old E) at 2.
    rewrite <- insert_delete_eq.
    rewrite !map_to_list_insert by apply lookup_delete_eq.
    simpl. lia.
  - rewrite map_to_list_insert by done. simpl.
    rewrite weight_empty. lia.
Qed.

Lemma size_add_pair (x : Z * Z) (s : gset (Z * Z)) :
  size ({[x]} ∪ s) = if decide (x ∈ s) then size s else S (size s).
Proof.
  case_decide.
  - f_equal. set_solver.
  - rewrite size_union by set_solver. by rewrite size_singleton.
Qed.

Lemma add_node_if_missing_total u g :
  dom (_adj g) = _node g →
  total_degree (_adj (add_node_if_missing u g)) = total_degree (_adj g).
Proof.
  intros Hdom. unfold add_node_if_missing.
  destruct (decide (u ∈ _node g)) as [|Hu]; [done|]. simpl.
  pose proof (total_degree_insert (_adj g) u ∅) as Hins.
  rewrite degree_weight, neighbors_not_in_dom in Hins by by rewrite Hdom.
  rewrite !weight_empty in Hins. lia.
Qed.

Lemma size_add (x : Z) (s : gset Z) :
  size ({[x]} ∪ s) = if decide (x ∈ s) then size s else S (size s).
Proof.
  case_decide.
  - f_equal. set_solver.
  - rewrite size_union by set_solver. by rewrite size_singleton.
Qed.

Lemma weight_add n x (s : gset Z) :
  weight n ({[x]} ∪ s) =
    weight n s + (if decide (x ∈ s) then 0 else if decide (n = x) then 2 else 1).
Proof.
  unfold weight. rewrite size_add.
  destruct (decide (x ∈ s)) as [Hx|Hx].
  - destruct (decide (n ∈ s)), (decide (n ∈ {[x]} ∪ s)); try lia; set_solver.
  - destruct (decide (n = x)) as [->|Hne].
    + destruct (decide (x ∈ s)), (decide (x ∈ {[x]} ∪ s)); try lia; set_solver.
    + destruct (decide (n ∈ s)), (decide (n ∈ {[x]} ∪ s)); try lia; set_solver.
Qed.

Lemma add_edge_total u v g :
  consistent g →
  total_degree (_adj (add_edge u v g)) =
    total_degree (_adj g) + (if decide (v ∈ neighbors (_adj g) u) then 0 else 2).
Proof.
  intros [Hdom Hsym]. unfold add_edge. simpl.
  pose proof (add_node_if_missing_dom u g Hdom) as Hdom1.
  set (adj := _adj (add_node_if_missing v (add_node_if_missing u g))).
  assert (Hn : ∀ n, neighbors adj n = neighbors (_adj g) n).
  { intros n. unfold adj.
    by rewrite !add_node_if_missing_neighbors. }
  assert (Ht : total_degree adj = total_degree (_adj g)).
  { unfold adj. by rewrite !add_node_if_missing_total. }
  set (adj1 := <[u := {[v]} ∪ neighbors adj u]> adj).
  pose proof (total_degree_insert adj u ({[v]} ∪ neighbors adj u)) as H1.
  pose proof (total_degree_insert adj1 v ({[u]} ∪ neighbors adj1 v)) as H2.
  fold adj1 in H1.
  rewrite degree_weight in H1, H2.
  rewrite weight_add in H1.
  assert (Hv : neighbors adj1 v =
               if decide (u = v) then {[v]} ∪ neighbors adj u else neighbors adj v).
  { unfold adj1. by rewrite neighbors_insert. }
  rewrite Hv in H2 |- *. rewrite <- Ht. clear Hv Ht.
  repeat match goal with
         | Hyp : context [neighbors adj ?n] |- _ => rewrite (Hn n) in Hyp
         | |- context [neighbors adj ?n] => rewrite (Hn n)
         end.
  clear Hn.
  destruct (decide (u = v)) as [->|Hne].
  - replace ({[v]} ∪ ({[v]} ∪ neighbors (_adj g) v))
      with ({[v]} ∪ neighbors (_adj g) v) in H2 |- * by set_solver.
    destruct (decide (v ∈ neighbors (_adj g) v)); [lia|].
    destruct (decide (v = v)); [lia | done].
  - rewrite weight_add in H2.
    destruct (decide (v ∈ neighbors (_adj g) u)) as [Hin|Hin].
    + destruct (decide (u ∈ neighbors (_adj g) v)) as [|Hout]; [lia|].
      exfalso. by apply Hout, Hsym.
    + destruct (decide (u ∈ neighbors (_adj g) v)) as [Hin'|].
      { exfalso. by apply Hin, Hsym. }
      destruct (decide (u = v)); [done|].
      destruct (decide (v = u)); [by subst | lia].
Qed.

Lemma add_edges_snoc es e g :
  add_edges (es ++ [e]) g = add_edge e.1 e.2 (add_edges es g).
Proof. unfold add_edges. by rewrite foldl_app. Qed.

Lemma total_degree_reachable es :
  total_degree (_adj (add_edges es empty_graph)) =
    2 * size (edges (add_edges es empty_graph)).
Proof.
  induction es as [|[u v] es IH] using rev_ind; [reflexivity|].
  rewrite add_edges_snoc.
  pose proof (add_edges_consistent es _ empty_graph_consistent) as Hg.
  set (g := add_edges es empty_graph) in *.
  rewrite add_edge_total by done.
  rewrite add_edge_edges by apply Hg.
  rewrite IH, size_add_pair.
  unfold undirected. cbn [fst snd].
  pose proof (elem_of_edges g) as Hel.
  destruct Hg as [_ Hsym].
  destruct (Z.le_ge_cases u v) as [Hle|Hle].
  - rewrite Z.min_l, Z.max_r by lia.
    destruct (decide (v ∈ _)) as [Hin|Hin], (decide ((u, v) ∈ _)) as [Hin'|Hin'];
      try lia; exfalso.
    + apply Hin', Hel. done.
    + apply Hel in Hin' as [_ ?]. done.
  - rewrite Z.min_r, Z.max_l by lia.
    destruct (decide (v ∈ _)) as [Hin|Hin], (decide ((v, u) ∈ _)) as [Hin'|Hin'];
      try lia; exfalso.
    + apply Hin', Hel. split; [lia|]. by apply Hsym.
    + apply Hel in Hin' as [_ ?]. by apply Hin, Hsym.
Qed.

(** The count networkx reports is the number of distinct edges. *)
Lemma number_of_edges_reachable es :
  number_of_edges (add_edges es empty_graph) =
    size (edges (add_edges es empty_graph)).
Proof.
  unfold number_of_edges. rewrite degree_sum, total_degree_reachable.
  rewrite Nat.mul_comm. apply Nat.div_mul. lia.
Qed.

Lemma size_list_to_set_le (l : list (Z * Z)) :
  size (list_to_set l : gset (Z * Z)) ≤ length l.
Proof.
  induction l as [|x l IH].
  - rewrite list_to_set_nil, size_empty. simpl. lia.
  - rewrite list_to_set_cons, size_add_pair. simpl. case_decide; lia.
Qed.
End Counting.

(** ** Computations *)

Section Computations.
Context {A B : Type}.

Lemma outcome_bind (c : M A) (k : A → M B) (w : World) :
  outcome (bind c k) w =
    match outcome c w with
    | inl e => inl e
    | inr a => outcome (k a) (after c w)
    end.
Proof.
  unfold outcome, after, bind. by destruct (c w) as [[e|a] w'].
Qed.

Lemma after_bind (c : M A) (k : A → M B) (w : World) :
  after (bind c k) w =
    match outcome c w with
    | inl e => after c w
    | inr a => after (k a) (after c w)
    end.
Proof.
  unfold outcome, after, bind. by destruct (c w) as [[e|a] w'].
Qed.

Lemma bind_lift_inr (a : A) (k : A → M B) : bind (lift (inr a)) k = k a.
Proof. reflexivity. Qed.

Lemma bind_lift_inl (e : exn) (k : A → M B) (w : World) :
  bind (lift (inl e)) k w = (inl e, w).
Proof. reflexivity. Qed.
End Computations.

Lemma bind_log {B} name lvl msg (k : unit → M B) (w : World) :
  bind (log name lvl msg) k w = k tt (after (log name lvl msg) w).
Proof. reflexivity. Qed.

Lemma outcome_bind_log {B} name lvl msg (k : unit → M B) (w : World) :
  outcome (bind (log name lvl msg) k) w = outcome (k tt) (after (log name lvl msg) w).
Proof. reflexivity. Qed.

Lemma outcome_log name lvl msg w : outcome (log name lvl msg) w = inr tt.
Proof. reflexivity. Qed.

(** ** The loop *)

Section ReaderFacts.
Context `{Runtime}.
Variable module_name : str.

Lemma loop_edge_line i line items g w u v wt a b :
  i ≠ 0%nat → split SP line = [u; v; wt] → int u = inr a → int v = inr b →
  loop module_name ((i, line) :: items) g w =
    loop module_name items (add_edge (a - 1) (b - 1) g)
      (after (log (logger module_name) DEBUG
                (py "Added an edge from u: " ++ u ++ py " to  v: " ++ v
                 ++ py " with weight " ++ wt)) w).
Proof.
  intros Hi Hsplit Hu Hv. cbn [loop].
  destruct (Nat.eqb_spec i 0) as [|_]; [done|].
  rewrite Hsplit. cbn [unpack3]. rewrite bind_lift_inr.
  rewrite Hu, bind_lift_inr, Hv, bind_lift_inr.
  by rewrite bind_log.
Qed.

Lemma loop_edge_lines lines k g w :
  outcome (loop module_name (enumerate_from (S k) lines) g) w =
    match endpoints_of_lines lines with
    | inl e => inl e
    | inr ps => inr (add_edges (to_nodes <$> ps) g)
    end.
Proof.
  revert k g w. induction lines as [|line lines IH]; intros k g w; [reflexivity|].
  cbn [enumerate_from loop endpoints_of_lines Nat.eqb].
  unfold endpoints_of_line.
  destruct (unpack3 (split SP line)) as [e|[[u v] wt]]; [reflexivity|].
  rewrite bind_lift_inr.
  destruct (int u) as [e|a]; [reflexivity|]. rewrite bind_lift_inr.
  destruct (int v) as [e|b]; [reflexivity|]. rewrite bind_lift_inr.
  rewrite outcome_bind_log, IH.
  by destruct (endpoints_of_lines lines).
Qed.

Lemma loop_outcome segments w :
  outcome (loop module_name (enumerate segments) empty_graph) w =
    match segments with
    | [] => inr empty_graph
    | header :: rest =>
        match unpack3 (split SP header) with
        | inl e => inl e
        | inr _ =>
            match endpoints_of_lines rest with
            | inl e => inl e
            | inr ps => inr (add_edges (to_nodes <$> ps) empty_graph)
            end
        end
    end.
Proof.
  destruct segments as [|header rest]; [reflexivity|].
  unfold enumerate. cbn [enumerate_from loop Nat.eqb].
  destruct (unpack3 (split SP header)) as [e|[[nn ne] unused]]; [reflexivity|].
  rewrite bind_lift_inr, outcome_bind_log.
  apply loop_edge_lines.
Qed.

(** The graph returned, or the exception raised, is [parse data]
    whatever the world is. *)
Lemma convert_outcome data w :
  outcome (convert_data_into_graph module_name data) w = parse data.
Proof.
  unfold convert_data_into_graph, parse. fold (processed data).
  rewrite outcome_bind, loop_outcome.
  destruct (processed data) as [|header rest]; [reflexivity|].
  destruct (unpack3 (split SP header)) as [e|t]; [reflexivity|].
  by destruct (endpoints_of_lines rest).
Qed.

Lemma parse_consistent data g : parse data = inr g → consistent g.
Proof.
  unfold parse. intros Hp.
  destruct (processed data) as [|header rest].
  { injection Hp as <-. apply empty_graph_consistent. }
  destruct (unpack3 (split SP header)); [done|].
  destruct (endpoints_of_lines rest); [done|].
  injection Hp as <-. apply add_edges_consistent, empty_graph_consistent.
Qed.

Lemma endpoints_of_lines_ok lines :
  forallb edge_line_ok lines = true →
  ∃ ps, endpoints_of_lines lines = inr ps ∧
        omap (λ line, match endpoints_of_line line with
                      | inr p => Some p
                      | inl _ => None
                      end) lines = ps ∧
        length ps = length lines.
Proof.
  induction lines as [|line lines IH]; intros Hok.
  { by exists []. }
  cbn [forallb] in Hok. apply andb_true_iff in Hok as [Hline Hrest].
  destruct (IH Hrest) as (ps & Hps & Hmap & Hlen).
  assert (∃ p, endpoints_of_line line = inr p) as [p Hp].
  { unfold edge_line_ok, is_int in Hline. unfold endpoints_of_line.
    destruct (split SP line) as [|u [|v [|wt [|]]]]; try done.
    cbn [unpack3].
    destruct (int u); [done|]. destruct (int v); [done|]. eauto. }
  exists (p :: ps). cbn [endpoints_of_lines omap list_omap].
  rewrite Hp, Hps, Hmap. repeat split. simpl. lia.
Qed.

Lemma three_tokens_unpack line :
  three_tokens line = true → ∃ t, unpack3 (split SP line) = inr t.
Proof.
  unfold three_tokens. intros Hlen%bool_decide_eq_true.
  destruct (split SP line) as [|a [|b [|c [|]]]]; try done. eauto.
Qed.

(** A well-formed text parses, into the graph of its pairs. *)
Lemma parse_well_formed data :
  well_formed data = true →
  parse data = inr (add_edges (to_nodes <$> parsed_pairs data) empty_graph) ∧
  length (parsed_pairs data) = length (edge_lines data).
Proof.
  unfold well_formed, parse, parsed_pairs, edge_lines.
  destruct (processed data) as [|header rest]; [done|].
  intros [Hh Hrest]%andb_true_iff. cbn [tail].
  destruct (three_tokens_unpack _ Hh) as [t ->].
  destruct (endpoints_of_lines_ok _ Hrest) as (ps & -> & -> & Hlen).
  done.
Qed.
End ReaderFacts.

(** ** The claims about [convert_data_into_graph] *)

Section Claims.
Context `{Runtime}.
Variable module_name : str.

Lemma add_edges_neighbors es g u v :
  dom (_adj g) = _node g →
  v ∈ neighbors (_adj (add_edges es g)) u ↔
    v ∈ neighbors (_adj g) u ∨ (u, v) ∈ es ∨ (v, u) ∈ es.
Proof.
  revert g. induction es as [|[a b] es IH]; intros g Hdom.
  - simpl. set_solver.
  - change (add_edges ((a, b) :: es) g) with (add_edges es (add_edge a b g)).
    rewrite IH by by apply add_edge_dom.
    rewrite add_edge_neighbors by done. cbn [fst snd].
    rewrite !elem_of_cons.
    repeat case_decide; subst; set_unfold; naive_solver.
Qed.

Lemma processed_cons (header rest : str) :
  LF ∉ header → processed (header ++ LF :: rest) = header :: processed rest.
Proof.
  intros Hh. unfold processed, all_but_last.
  rewrite split_app, split_without_sep by done.
  pose proof (split_not_nil LF rest) as Hne.
  simpl. by destruct (split LF rest).
Qed.

Lemma unpack3_error {A} (l : list A) e :
  unpack3 l = inl e → ∃ why, e = ValueError why.
Proof.
  unfold unpack3.
  destruct l as [|a [|b [|c [|]]]]; simpl; intros [= <-]; eauto.
Qed.

Lemma unpack3_length {A} (l : list A) :
  length l ≠ 3%nat → ∃ why, unpack3 l = inl (ValueError why).
Proof.
  destruct l as [|a [|b [|c [|]]]]; simpl; intros Hl; try done; eauto.
Qed.

Lemma int_error s e : int s = inl e → ∃ why, e = ValueError why.
Proof.
  unfold int, PyLong_FromString.
  repeat match goal with
         | |- context [match ?x with _ => _ end] => destruct x
         end; intros [= <-]; eauto.
Qed.

Lemma endpoints_of_line_error line e :
  endpoints_of_line line = inl e → ∃ why, e = ValueError why.
Proof.
  unfold endpoints_of_line.
  destruct (unpack3 (split SP line)) as [e'|[[u v] wt]] eqn:Eu.
  { intros [= <-]. by eapply unpack3_error. }
  destruct (int u) as [e'|a] eqn:Ea.
  { intros [= <-]. by eapply int_error. }
  destruct (int v) as [e'|b] eqn:Eb; [|done].
  intros [= <-]. by eapply int_error.
Qed.

Lemma endpoints_of_lines_error lines e :
  endpoints_of_lines lines = inl e → ∃ why, e = ValueError why.
Proof.
  induction lines as [|line lines IH]; [done|].
  cbn [endpoints_of_lines].
  destruct (endpoints_of_line line) as [e'|p] eqn:El.
  { intros [= <-]. by eapply endpoints_of_line_error. }
  destruct (endpoints_of_lines lines); [|done].
  intros [= <-]. by apply IH.
Qed.

Lemma endpoints_of_lines_bad lines j line e :
  lines !! j = Some line → endpoints_of_line line = inl e →
  ∃ why, endpoints_of_lines lines = inl (ValueError why).
Proof.
  revert j. induction lines as [|l lines IH]; intros j Hj Hbad; [done|].
  cbn [endpoints_of_lines].
  destruct (endpoints_of_line l) as [e'|p] eqn:El.
  { destruct (endpoints_of_line_error _ _ El) as [why ->]. eauto. }
  destruct j as [|j]; [simpl in Hj; congruence|].
  destruct (IH j Hj Hbad) as [why ->]. eauto.
Qed.

(** C1. A well-formed text yields a graph: its nodes are exactly the parsed
    endpoints minus one, its edges exactly the undirected edges of the
    parsed (u, v) pairs, one each however often a pair is repeated, a pair
    (u, u) giving the self-loop at u - 1. *)
Theorem convert_graph_of_pairs (data : str) (w : World) :
  well_formed data = true →
  ∃ g, outcome (convert_data_into_graph module_name data) w = inr g ∧
       length (parsed_pairs data) = length (edge_lines data) ∧
       nodes g = list_to_set (parsed_pairs data ≫= λ p, [p.1 - 1; p.2 - 1]%Z) ∧
       edges g = list_to_set (undirected ∘ to_nodes <$> parsed_pairs data) ∧
       (∀ a b, has_edge g a b = true ↔
               ∃ p, p ∈ parsed_pairs data ∧
                    ((a, b) = to_nodes p ∨ (b, a) = to_nodes p)) ∧
       number_of_edges g = size (edges g).
Proof.
  intros Hwf. destruct (parse_well_formed data Hwf) as [Hparse Hlen].
  eexists. rewrite convert_outcome. split; [exact Hparse|].
  split; [exact Hlen|].
  set (ps := parsed_pairs data). repeat split.
  - rewrite add_edges_nodes.
    change (nodes empty_graph) with (∅ : gset Z).
    rewrite union_empty_r_L. f_equal.
    induction ps as [|p ps IH]; [done|].
    rewrite fmap_cons, !bind_cons, IH. reflexivity.
  - rewrite add_edges_edges by apply empty_graph_consistent.
    rewrite empty_graph_edges, union_empty_r_L. by rewrite list_fmap_compose.
  - unfold has_edge. intros Hb%bool_decide_eq_true.
    apply add_edges_neighbors in Hb; [|done].
    destruct Hb as [Hb | [Hb | Hb]].
    + unfold neighbors in Hb. simpl in Hb. set_solver.
    + apply list_elem_of_fmap in Hb as (p & Hp & Hin). eauto.
    + apply list_elem_of_fmap in Hb as (p & Hp & Hin). eauto.
  - intros (p & Hin & Hp). unfold has_edge. apply bool_decide_eq_true.
    apply add_edges_neighbors; [done|]. right.
    destruct Hp as [-> | ->]; [left | right];
      apply list_elem_of_fmap; eauto.
  - apply number_of_edges_reachable.
Qed.

(** C3. Whatever the last segment of the text is, the function runs on
    the segments before it and on nothing else: two texts that differ in
    their last segment only give the same result and the same log. *)
Theorem last_segment_ignored (segs : list str) (x y : str) (w : World) :
  Forall (λ s, LF ∉ s) segs → LF ∉ x → LF ∉ y →
  processed (join LF (segs ++ [x])) = segs ∧
  convert_data_into_graph module_name (join LF (segs ++ [x])) w =
    run_segments module_name segs w ∧
  convert_data_into_graph module_name (join LF (segs ++ [x])) w =
    convert_data_into_graph module_name (join LF (segs ++ [y])) w.
Proof.
  intros Hsegs Hx Hy.
  assert (Hrun : ∀ z, LF ∉ z →
            convert_data_into_graph module_name (join LF (segs ++ [z])) w =
              run_segments module_name segs w).
  { intros z Hz. unfold convert_data_into_graph, run_segments.
    fold (processed (join LF (segs ++ [z]))).
    by rewrite processed_join. }
  split; [by apply processed_join|].
  split; [by apply Hrun|]. by rewrite !Hrun.
Qed.

(** C5. A malformed processed line, one that does not split into three
    tokens or an edge line whose first or second token [int] rejects,
    makes the call raise [ValueError]: no graph is returned. *)
Theorem malformed_line_raises (data : str) (w : World) (i : nat) (line : str) :
  processed data !! i = Some line → malformed i line →
  ∃ why, outcome (convert_data_into_graph module_name data) w
         = inl (ValueError why).
Proof.
  intros Hi Hbad. rewrite convert_outcome. unfold parse.
  destruct (processed data) as [|header rest]; [done|].
  destruct (unpack3 (split SP header)) as [e|t] eqn:Eh.
  { destruct (unpack3_error _ _ Eh) as [why ->]. eauto. }
  destruct i as [|j].
  - injection Hi as ->. destruct Hbad as [Hlen | [? _]]; [|done].
    destruct (unpack3_length _ Hlen) as [why Hwhy]. congruence.
  - change (rest !! j = Some line) in Hi.
    assert (∃ e, endpoints_of_line line = inl e) as [e He].
    { unfold endpoints_of_line.
      destruct Hbad as [Hlen | (_ & u & v & wt & Hs & Hint)].
      - destruct (unpack3_length _ Hlen) as [why ->]. eauto.
      - rewrite Hs. cbn [unpack3]. unfold is_int in Hint.
        destruct (int u); [eauto|]. destruct (int v); [eauto|].
        by destruct Hint. }
    destruct (endpoints_of_lines_bad _ _ _ _ Hi He) as [why ->]. eauto.
Qed.

(** C6. Two texts that differ only in a first line of three tokens give
    the same graph, or raise the same exception. *)
Theorem header_only_logged (h1 h2 : str) (segs : list str) (w : World) :
  LF ∉ h1 → LF ∉ h2 → three_tokens h1 = true → three_tokens h2 = true →
  outcome (convert_data_into_graph module_name (join LF (h1 :: segs))) w =
    outcome (convert_data_into_graph module_name (join LF (h2 :: segs))) w.
Proof.
  intros Hh1 Hh2 Ht1 Ht2. rewrite !convert_outcome. unfold parse.
  destruct segs as [|s segs].
  { simpl. by rewrite !processed_without_newline. }
  change (join LF (h1 :: s :: segs)) with (h1 ++ LF :: join LF (s :: segs)).
  change (join LF (h2 :: s :: segs)) with (h2 ++ LF :: join LF (s :: segs)).
  rewrite !processed_cons by done.
  destruct (three_tokens_unpack _ Ht1) as [t1 ->].
  destruct (three_tokens_unpack _ Ht2) as [t2 ->].
  reflexivity.
Qed.

(** C8. The graph returned for a text does not depend on the world the
    call runs in; two calls in a row return the same graph, with the same
    node set and the same edge set. *)
Theorem convert_deterministic (data : str) (w w' : World) :
  outcome (convert_data_into_graph module_name data) w =
    outcome (convert_data_into_graph module_name data) w' ∧
  match outcome (twice module_name data) w with
  | inr (g1, g2) =>
      outcome (convert_data_into_graph module_name data) w = inr g1 ∧
      nodes g1 = nodes g2 ∧ edges g1 = edges g2
  | inl e => outcome (convert_data_into_graph module_name data) w = inl e
  end.
Proof.
  split; [by rewrite !convert_outcome|].
  unfold twice. rewrite outcome_bind, !convert_outcome.
  destruct (parse data) as [e|g] eqn:E; [done|].
  by rewrite outcome_bind, convert_outcome, E.
Qed.

Lemma undirected_to_nodes p : undirected (to_nodes p) = to_nodes (undirected p).
Proof. destruct p as [a b]. unfold undirected, to_nodes. simpl. f_equal; lia. Qed.

Lemma undirected_to_nodes_list (ps : list (Z * Z)) :
  undirected <$> (to_nodes <$> ps) = to_nodes <$> (undirected <$> ps).
Proof.
  induction ps as [|p ps IH]; [done|].
  rewrite !fmap_cons, IH. by rewrite undirected_to_nodes.
Qed.

Lemma to_nodes_inj : Inj (=) (=) to_nodes.
Proof.
  intros [a b] [c d]. unfold to_nodes. simpl. intros [= ? ?]. f_equal; lia.
Qed.

Lemma size_list_to_set_NoDup (l : list (Z * Z)) :
  size (list_to_set l : gset (Z * Z)) = length l ↔ NoDup l.
Proof.
  split; [|apply size_list_to_set].
  induction l as [|x l IH]; intros Hsize; [constructor|].
  rewrite list_to_set_cons, size_add_pair in Hsize.
  pose proof (size_list_to_set_le l) as Hle. simpl in Hsize.
  case_decide as Hx; [lia|].
  constructor; [by rewrite elem_of_list_to_set in Hx | apply IH; lia].
Qed.

(** C7, amended. For a well-formed text the graph has at most as many
    edges as the text has edge lines, and exactly as many when, and only
    when, no two edge lines name the same pair of endpoints in either
    order; a self-loop line counts like any other. *)
Theorem edge_count_bound (data : str) (w : World) :
  well_formed data = true →
  ∃ g, outcome (convert_data_into_graph module_name data) w = inr g ∧
       number_of_edges g = size (edges g) ∧
       (number_of_edges g ≤ length (edge_lines data))%nat ∧
       (number_of_edges g = length (edge_lines data) ↔
          NoDup (undirected <$> parsed_pairs data)).
Proof.
  intros Hwf. destruct (parse_well_formed data Hwf) as [Hparse Hlen].
  eexists. rewrite convert_outcome. split; [exact Hparse|].
  rewrite number_of_edges_reachable.
  rewrite add_edges_edges by apply empty_graph_consistent.
  rewrite empty_graph_edges, union_empty_r_L. rewrite <- Hlen.
  set (ps := parsed_pairs data).
  assert (Hl : length (undirected <$> (to_nodes <$> ps)) = length ps)
    by by rewrite !length_fmap.
  split; [done|]. split.
  - rewrite <- Hl. apply size_list_to_set_le.
  - rewrite <- Hl, size_list_to_set_NoDup.
    rewrite undirected_to_nodes_list. split.
    + apply NoDup_fmap_1.
    + pose proof to_nodes_inj as Hinj. apply NoDup_fmap_2, Hinj.
Qed.

(** C9. A text without a line feed is one segment, which is dropped: the
    call returns the empty graph and logs the two totals, both 0. *)
Theorem no_newline_empty_graph (data : str) (w : World) :
  LF ∉ data →
  outcome (convert_data_into_graph module_name data) w = inr empty_graph ∧
  nodes empty_graph = ∅ ∧ edges empty_graph = ∅ ∧
  after (convert_data_into_graph module_name data) w =
    after (log (logger module_name) INFO (py "Total number of nodes: 0") ;;
           log (logger module_name) INFO (py "Total number of edges: 0")) w.
Proof.
  intros Hdata. unfold convert_data_into_graph. fold (processed data).
  rewrite processed_without_newline by done.
  repeat split.
Qed.

Lemma has_edge_add_edge u v g : has_edge (add_edge u v g) u v = true.
Proof.
  unfold has_edge, add_edge. simpl. apply bool_decide_eq_true.
  rewrite !neighbors_insert.
  destruct (decide (v = u)) as [->|]; [set_solver|].
  rewrite decide_True by done. set_solver.
Qed.

(** C10. An edge line of three tokens whose first two are integers is
    accepted whatever the third is: the loop adds the edge, mentions the
    third token in a debug message only, and goes on; a text of a header
    and such a line gives the graph of that one edge. *)
Theorem weight_token_unchecked (i : nat) (line u v wt : str) (a b : Z)
    (items : list (nat * str)) (g : Graph) (w : World) :
  i ≠ 0%nat → split SP line = [u; v; wt] → int u = inr a → int v = inr b →
  loop module_name ((i, line) :: items) g w =
    loop module_name items (add_edge (a - 1) (b - 1) g)
      (after (log (logger module_name) DEBUG
                (py "Added an edge from u: " ++ u ++ py " to  v: " ++ v
                 ++ py " with weight " ++ wt)) w) ∧
  has_edge (add_edge (a - 1) (b - 1) g) (a - 1) (b - 1) = true ∧
  (∀ header, LF ∉ header → LF ∉ line → three_tokens header = true →
     outcome (convert_data_into_graph module_name
                (join LF [header; line; []])) w
     = inr (add_edge (a - 1) (b - 1) empty_graph)).
Proof.
  intros Hi Hsplit Hu Hv.
  split; [by apply loop_edge_line|]. split; [apply has_edge_add_edge|].
  intros header Hh Hl Ht. rewrite convert_outcome. unfold parse.
  change [header; line; []] with ([header; line] ++ [[]]).
  rewrite (processed_join [header; line] []).
  - destruct (three_tokens_unpack _ Ht) as [t ->].
    cbn [endpoints_of_lines]. unfold endpoints_of_line.
    rewrite Hsplit. cbn [unpack3]. by rewrite Hu, Hv.
  - by repeat constructor.
  - by intros ?%elem_of_nil.
Qed.

(** C2, amended. The text "3 2 0\n1 2 5\n2 3 7\n", with one line feed at
    its end, has the header ("3", "2", "0") and gives the graph with
    nodes 0, 1, 2 and edges (0,1), (1,2). With a second line feed at the
    end the empty fourth segment is read as an edge line, and the call
    raises [ValueError]. *)
Theorem scenario_three_nodes (w : World) :
  processed (py "3 2 0\n1 2 5\n2 3 7\n") = [py "3 2 0"; py "1 2 5"; py "2 3 7"] ∧
  unpack3 (split SP (py "3 2 0")) = inr (py "3", py "2", py "0") ∧
  (∃ g, outcome (convert_data_into_graph module_name
                   (py "3 2 0\n1 2 5\n2 3 7\n")) w = inr g ∧
        nodes g = {[0; 1; 2]}%Z ∧ edges g = {[(0, 1); (1, 2)]}%Z ∧
        number_of_nodes g = 3%nat ∧ number_of_edges g = 2%nat) ∧
  processed (py "3 2 0\n1 2 5\n2 3 7\n\n")
    = [py "3 2 0"; py "1 2 5"; py "2 3 7"; []] ∧
  outcome (convert_data_into_graph module_name
             (py "3 2 0\n1 2 5\n2 3 7\n\n")) w
    = inl (ValueError (not_enough_values 3 1)).
Proof.
  split; [reflexivity|]. split; [reflexivity|]. split.
  - exists (add_edges [(0, 1); (1, 2)]%Z empty_graph).
    rewrite convert_outcome. split; [by vm_compute|].
    rewrite add_edges_nodes, add_edges_edges by apply empty_graph_consistent.
    rewrite number_of_edges_reachable.
    rewrite add_edges_edges by apply empty_graph_consistent.
    repeat split; by vm_compute.
  - split; [reflexivity|]. rewrite convert_outcome. by vm_compute.
Qed.
End Claims.

(** ** The claim about [read_data_from_url] *)

(** C4. The call sends one GET request, to the URL it is given. When the
    response has status 200 it returns the body; for any other status it
    returns [None], and raises nothing. It writes no log. *)
Theorem read_data_from_url_status (url : str) (w : World) (resp : Response) :
  internet w (length (requests w)) url = inr resp →
  requests (after (read_data_from_url url) w) = requests w ++ [url] ∧
  stderr (after (read_data_from_url url) w) = stderr w ∧
  (status_code resp = 200%Z →
     outcome (read_data_from_url url) w = inr (Some (text resp))) ∧
  (status_code resp ≠ 200%Z →
     outcome (read_data_from_url url) w = inr None).
Proof.
  intros Hresp. unfold read_data_from_url, outcome, after, bind, requests_get.
  rewrite Hresp.
  destruct (Z.eqb_spec (status_code resp) 200) as [Heq|Hne]; repeat split; done.
Qed.

(** ** The claims at concrete texts *)

Section Examples.
#[local] Existing Instance latin1.

Lemma convert_graph_of_pairs_witness :
  let data := py "3 4 0\n1 2 5\n2 3 7\n1 2 9\n3 3 1\n" in
  well_formed data = true ∧
  ∃ g, outcome (convert_data_into_graph (py "reader") data) imported = inr g ∧
       length (parsed_pairs data) = length (edge_lines data) ∧
       nodes g = list_to_set (parsed_pairs data ≫= λ p, [p.1 - 1; p.2 - 1]%Z) ∧
       edges g = list_to_set (undirected ∘ to_nodes <$> parsed_pairs data) ∧
       (∀ a b, has_edge g a b = true ↔
               ∃ p, p ∈ parsed_pairs data ∧
                    ((a, b) = to_nodes p ∨ (b, a) = to_nodes p)) ∧
       number_of_edges g = size (edges g).
Proof.
  split; [vm_compute; reflexivity|].
  apply (convert_graph_of_pairs (py "reader")
           (py "3 4 0\n1 2 5\n2 3 7\n1 2 9\n3 3 1\n") imported).
  vm_compute; reflexivity.
Defined.

Lemma last_segment_ignored_witness :
  processed (join LF ([py "3 2 0"; py "1 2 5"] ++ [[]])) = [py "3 2 0"; py "1 2 5"] ∧
  convert_data_into_graph (py "reader") (join LF ([py "3 2 0"; py "1 2 5"] ++ [[]])) imported =
    run_segments (py "reader") [py "3 2 0"; py "1 2 5"] imported ∧
  convert_data_into_graph (py "reader") (join LF ([py "3 2 0"; py "1 2 5"] ++ [[]])) imported =
    convert_data_into_graph (py "reader")
      (join LF ([py "3 2 0"; py "1 2 5"] ++ [py "no edge at all"])) imported.
Proof.
  apply (last_segment_ignored (py "reader") [py "3 2 0"; py "1 2 5"] []
           (py "no edge at all") imported); decided.
Defined.

Lemma malformed_line_raises_witness :
  ∃ why, outcome (convert_data_into_graph (py "reader")
                    (py "3 2 0\n1 2 5\n2 x 7\n")) imported
         = inl (ValueError why).
Proof.
  apply (malformed_line_raises (py "reader") (py "3 2 0\n1 2 5\n2 x 7\n")
           imported 2 (py "2 x 7")).
  - reflexivity.
  - right. split; [discriminate|].
    exists (py "2"), (py "x"), (py "7"). split; [reflexivity|].
    right. reflexivity.
Defined.

Lemma header_only_logged_witness :
  outcome (convert_data_into_graph (py "reader")
             (join LF [py "3 2 0"; py "1 2 5"; py "2 3 7"; []])) imported =
  outcome (convert_data_into_graph (py "reader")
             (join LF [py "800 4661 x"; py "1 2 5"; py "2 3 7"; []])) imported.
Proof.
  apply (header_only_logged (py "reader") (py "3 2 0") (py "800 4661 x")
           [py "1 2 5"; py "2 3 7"; []] imported);
    first [decided | vm_compute; reflexivity].
Defined.

Lemma edge_count_bound_witness :
  let data := py "3 4 0\n1 2 5\n2 3 7\n1 2 9\n3 3 1\n" in
  ∃ g, outcome (convert_data_into_graph (py "reader") data) imported = inr g ∧
       number_of_edges g = size (edges g) ∧
       (number_of_edges g ≤ length (edge_lines data))%nat ∧
       (number_of_edges g = length (edge_lines data) ↔
          NoDup (undirected <$> parsed_pairs data)).
Proof.
  apply (edge_count_bound (py "reader")
           (py "3 4 0\n1 2 5\n2 3 7\n1 2 9\n3 3 1\n") imported).
  vm_compute; reflexivity.
Defined.

Lemma no_newline_empty_graph_witness :
  outcome (convert_data_into_graph (py "reader") (py "not a header")) imported
    = inr empty_graph ∧
  nodes empty_graph = ∅ ∧ edges empty_graph = ∅ ∧
  after (convert_data_into_graph (py "reader") (py "not a header")) imported =
    after (log (logger (py "reader")) INFO (py "Total number of nodes: 0") ;;
           log (logger (py "reader")) INFO (py "Total number of edges: 0")) imported.
Proof.
  apply (no_newline_empty_graph (py "reader") (py "not a header") imported).
  decided.
Defined.

Lemma weight_token_unchecked_witness :
  loop (py "reader") [(1%nat, py "1 2 abc")] empty_graph imported =
    loop (py "reader") [] (add_edge (1 - 1) (2 - 1) empty_graph)
      (after (log (logger (py "reader")) DEBUG
                (py "Added an edge from u: " ++ py "1" ++ py " to  v: " ++ py "2"
                 ++ py " with weight " ++ py "abc")) imported) ∧
  has_edge (add_edge (1 - 1) (2 - 1) empty_graph) (1 - 1) (2 - 1) = true ∧
  (∀ header, LF ∉ header → LF ∉ py "1 2 abc" → three_tokens header = true →
     outcome (convert_data_into_graph (py "reader")
                (join LF [header; py "1 2 abc"; []])) imported
     = inr (add_edge (1 - 1) (2 - 1) empty_graph)).
Proof.
  apply (weight_token_unchecked (py "reader") 1 (py "1 2 abc")
           (py "1") (py "2") (py "abc") 1 2 [] empty_graph imported);
    first [discriminate | reflexivity].
Defined.

Lemma read_data_from_url_status_witness :
  (requests (after (read_data_from_url URL) (serving not_found)) = [URL] ∧
   outcome (read_data_from_url URL) (serving not_found) = inr None) ∧
  (requests (after (read_data_from_url URL) (serving found)) = [URL] ∧
   outcome (read_data_from_url URL) (serving found) = inr (Some (text found))).
Proof.
  split.
  - destruct (read_data_from_url_status URL (serving not_found) not_found eq_refl)
      as (Hreq & _ & _ & Hnone).
    split; [exact Hreq | apply Hnone; discriminate].
  - destruct (read_data_from_url_status URL (serving found) found eq_refl)
      as (Hreq & _ & Hsome & _).
    split; [exact Hreq | apply Hsome; reflexivity].
Defined.

(** C2, as stated: with the two line feeds at its end the text of the
    scenario does not give a graph; the call raises. *)
Lemma scenario_double_newline_raises :
  outcome (convert_data_into_graph (py "reader")
             (py "3 2 0\n1 2 5\n2 3 7\n\n")) imported
    = inl (ValueError (not_enough_values 3 1)) ∧
  ¬ ∃ g, outcome (convert_data_into_graph (py "reader")
                    (py "3 2 0\n1 2 5\n2 3 7\n\n")) imported = inr g ∧
         nodes g = {[0; 1; 2]}%Z ∧ edges g = {[(0, 1); (1, 2)]}%Z.
Proof.
  assert (Hout : outcome (convert_data_into_graph (py "reader")
                            (py "3 2 0\n1 2 5\n2 3 7\n\n")) imported
                 = inl (ValueError (not_enough_values 3 1)))
    by (vm_compute; reflexivity).
  split; [exact Hout|]. intros (g & Hg & _). congruence.
Qed.

(** C7, as stated: two edge lines, different from each other and neither
    a self-loop, that give one edge. *)
Lemma reversed_pair_fewer_edges :
  let data := py "2 2 0\n1 2 1\n2 1 1\n" in
  well_formed data = true ∧
  NoDup (edge_lines data) ∧ NoDup (parsed_pairs data) ∧
  Forall (λ p, p.1 ≠ p.2) (parsed_pairs data) ∧
  length (edge_lines data) = 2%nat ∧
  ∃ g, outcome (convert_data_into_graph (py "reader") data) imported = inr g ∧
       number_of_edges g = 1%nat ∧ size (edges g) = 1%nat.
Proof.
  split; [vm_compute; reflexivity|].
  split; [decided|]. split; [decided|]. split; [decided|].
  split; [reflexivity|].
  eexists. split; [vm_compute; reflexivity|].
  split; vm_compute; reflexivity.
Qed.
End Examples.

(** * More of the two modules *)

(** ** What a call writes *)

Section LogFacts.
Context `{Runtime}.
Variable module_name : str.

Lemma with_stderr_same (w : World) : with_stderr (stderr w) w = w.
Proof. by destruct w. Qed.

Lemma with_stderr_app (out out' : list str) (w : World) :
  with_stderr (stderr (with_stderr (stderr w ++ out) w) ++ out')
              (with_stderr (stderr w ++ out) w)
  = with_stderr (stderr w ++ out ++ out') w.
Proof. unfold with_stderr. simpl. by rewrite app_assoc. Qed.

Lemma written_with_stderr name out w events :
  written name (with_stderr out w) events = written name w events.
Proof. reflexivity. Qed.

Lemma written_cons name w lvl msg events :
  written name w ((lvl, msg) :: events)
  = (if isEnabledFor name lvl w
     then replicate (handlers (getLogger name w)) msg else [])
    ++ written name w events.
Proof. reflexivity. Qed.

Lemma written_app name w events events' :
  written name w (events ++ events')
  = written name w events ++ written name w events'.
Proof. unfold written. apply bind_app. Qed.

Lemma after_log name lvl msg w :
  after (log name lvl msg) w
  = with_stderr (stderr w ++ written name w [(lvl, msg)]) w.
Proof.
  rewrite written_cons.
  change (written name w []) with (@nil str). rewrite app_nil_r.
  unfold after, log. cbn [snd].
  destruct (isEnabledFor name lvl w); [done|].
  by rewrite app_nil_r, with_stderr_same.
Qed.

Lemma after_bind_log {B} name lvl msg (k : unit → M B) w :
  after (bind (log name lvl msg) k) w = after (k tt) (after (log name lvl msg) w).
Proof. reflexivity. Qed.

Lemma unpack3_inr {A} (l : list A) a b c :
  unpack3 l = inr (a, b, c) → l = [a; b; c].
Proof.
  destruct l as [|x [|y [|z [|]]]]; simpl; intros [=]; by subst.
Qed.

Lemma after_step name lvl msg (c : M Graph) w events :
  (∀ w', after c w' = with_stderr (stderr w' ++ written name w' events) w') →
  after (log name lvl msg ;; c) w
  = with_stderr (stderr w ++ written name w ((lvl, msg) :: events)) w.
Proof.
  intros Hc. rewrite after_bind_log, Hc, after_log.
  rewrite written_with_stderr, with_stderr_app.
  rewrite (written_cons name w lvl msg events).
  rewrite (written_cons name w lvl msg []).
  change (written name w []) with (@nil str). by rewrite app_nil_r.
Qed.

(** The loop changes the world by what it logs, and by nothing else. *)
Lemma loop_after items g w :
  after (loop module_name items g) w
  = with_stderr (stderr w ++ written module_name w (loop_log items)) w.
Proof.
  revert g w. induction items as [|[i line] items IH]; intros g w.
  { simpl. unfold after, ret. simpl.
    change (written module_name w []) with (@nil str).
    by rewrite app_nil_r, with_stderr_same. }
  cbn [loop loop_log]. destruct (i =? 0)%nat.
  - destruct (unpack3 (split SP line)) as [e|[[a b] c]] eqn:E.
    + unfold after. rewrite bind_lift_inl. simpl.
      change (written module_name w []) with (@nil str).
      by rewrite app_nil_r, with_stderr_same.
    + rewrite bind_lift_inr. unfold header_message.
      rewrite (unpack3_inr _ _ _ _ E).
      apply after_step. intros w'. apply IH.
  - unfold endpoints_of_line, edge_message.
    destruct (unpack3 (split SP line)) as [e|[[u v] wt]] eqn:E.
    + unfold after. rewrite bind_lift_inl. simpl.
      change (written module_name w []) with (@nil str).
      by rewrite app_nil_r, with_stderr_same.
    + rewrite bind_lift_inr. rewrite (unpack3_inr _ _ _ _ E).
      destruct (int u) as [e|a].
      { unfold after. rewrite bind_lift_inl. simpl.
        change (written module_name w []) with (@nil str).
        by rewrite app_nil_r, with_stderr_same. }
      rewrite bind_lift_inr.
      destruct (int v) as [e|b].
      { unfold after. rewrite bind_lift_inl. simpl.
        change (written module_name w []) with (@nil str).
        by rewrite app_nil_r, with_stderr_same. }
      rewrite bind_lift_inr.
      apply after_step. intros w'. apply IH.
Qed.

(** So does the whole call. *)
Lemma convert_after data w :
  after (convert_data_into_graph module_name data) w
  = with_stderr (stderr w ++ written module_name w (convert_log data)) w.
Proof.
  unfold convert_data_into_graph, convert_log. fold (processed data).
  rewrite after_bind, loop_after.
  pose proof (loop_outcome module_name (processed data) w) as Hout.
  change (outcome (loop module_name (enumerate (processed data)) empty_graph) w
          = parse data) in Hout.
  rewrite Hout, written_app.
  destruct (parse data) as [e|g].
  { change (written module_name w []) with (@nil str). by rewrite app_nil_r. }
  set (w1 := with_stderr _ w).
  rewrite after_bind_log, after_bind_log. unfold after at 1, ret. cbn [snd].
  rewrite !after_log. unfold w1.
  rewrite !written_with_stderr, !with_stderr_app.
  unfold totals_messages.
  rewrite (written_cons module_name w INFO _ [_]).
  rewrite !(written_cons module_name w INFO _ []).
  change (written module_name w []) with (@nil str).
  by rewrite !app_nil_r.
Qed.
End LogFacts.

Section LogProperties.
Context `{Runtime}.
Variable module_name : str.

Lemma written_edge_lines_quiet lines i w :
  isEnabledFor module_name DEBUG w = false →
  written module_name w (loop_log (enumerate_from (S i) lines)) = [].
Proof.
  intros Hoff. revert i. induction lines as [|line lines IH]; intros i; [done|].
  cbn [enumerate_from loop_log Nat.eqb].
  destruct (endpoints_of_line line); [done|].
  by rewrite written_cons, Hoff, IH.
Qed.

Lemma loop_log_edge_lines_ok lines i :
  forallb edge_line_ok lines = true →
  loop_log (enumerate_from (S i) lines) = (λ line, (DEBUG, edge_message line)) <$> lines.
Proof.
  revert i. induction lines as [|line lines IH]; intros i Hok; [done|].
  cbn [forallb] in Hok. apply andb_true_iff in Hok as [Hline Hrest].
  cbn [enumerate_from loop_log Nat.eqb]. rewrite fmap_cons, <- (IH (S i) Hrest).
  unfold edge_line_ok, is_int in Hline. unfold endpoints_of_line.
  destruct (split SP line) as [|u [|v [|wt [|]]]]; try done. cbn [unpack3].
  destruct (int u); [done|]. by destruct (int v).
Qed.

Lemma written_all_enabled w events :
  (∀ lvl msg, (lvl, msg) ∈ events → isEnabledFor module_name lvl w = true) →
  written module_name w events
  = events.*2 ≫= replicate (handlers (getLogger module_name w)).
Proof.
  induction events as [|[lvl msg] events IH]; intros Hon; [done|].
  rewrite written_cons, (Hon lvl msg) by left.
  rewrite fmap_cons, bind_cons. f_equal. apply IH.
  intros l m Hin. apply (Hon l m). by right.
Qed.

Lemma parse_error_no_totals data e :
  parse data = inl e → convert_log data = loop_log (enumerate (processed data)).
Proof. intros Hp. unfold convert_log. by rewrite Hp, app_nil_r. Qed.

(** X1. The call changes nothing but the error stream, and that by adding to
    its end: it sends no request and leaves every logger as it was. *)
Theorem convert_only_writes (data : str) (w : World) :
  loggers (after (convert_data_into_graph module_name data) w) = loggers w ∧
  root_level (after (convert_data_into_graph module_name data) w) = root_level w ∧
  requests (after (convert_data_into_graph module_name data) w) = requests w ∧
  internet (after (convert_data_into_graph module_name data) w) = internet w ∧
  stderr (after (convert_data_into_graph module_name data) w)
    = stderr w ++ written module_name w (convert_log data).
Proof. rewrite convert_after. by repeat split. Qed.

(** X2. With the logger at the level the module gives it (above [DEBUG], at
    most [INFO]) a call that returns writes the expectation of the header,
    if there is a header, and the two totals, each once for every handler;
    no edge is mentioned. *)
Theorem convert_log_at_info (data : str) (w : World) (g : Graph) :
  DEBUG < getEffectiveLevel module_name w → getEffectiveLevel module_name w ≤ INFO →
  outcome (convert_data_into_graph module_name data) w = inr g →
  stderr (after (convert_data_into_graph module_name data) w)
  = stderr w
    ++ ((match processed data with
         | [] => []
         | header :: _ => [header_message header]
         end
         ++ [py "Total number of nodes: " ++ str_of_nat (number_of_nodes g);
             py "Total number of edges: " ++ str_of_nat (number_of_edges g)])
        ≫= replicate (handlers (getLogger module_name w))).
Proof.
  intros Hlo Hhi Hout. rewrite convert_outcome in Hout.
  rewrite convert_after. cbn [stderr with_stderr]. f_equal.
  assert (Hdebug : isEnabledFor module_name DEBUG w = false).
  { unfold isEnabledFor. by apply N.leb_gt. }
  assert (Hinfo : isEnabledFor module_name INFO w = true).
  { unfold isEnabledFor. by apply N.leb_le. }
  unfold convert_log. rewrite Hout, written_app.
  unfold totals_messages. rewrite !written_cons, Hinfo.
  change (written module_name w []) with (@nil str).
  rewrite bind_app, !bind_cons.
  change (@nil str ≫= replicate (handlers (getLogger module_name w)))
    with (@nil str).
  f_equal.
  unfold parse in Hout.
  destruct (processed data) as [|header rest]; [done|].
  unfold enumerate. cbn [enumerate_from loop_log Nat.eqb].
  destruct (unpack3 (split SP header)); [done|].
  rewrite written_cons, Hinfo, written_edge_lines_quiet by done.
  by rewrite bind_cons.
Qed.

(** X3. With the logger at [DEBUG] or below, a call on a well-formed text with
    a header writes the expectation, then one message for each edge line
    in the order of the text, then the two totals. *)
Theorem convert_log_at_debug (data header : str) (rest : list str)
    (w : World) (g : Graph) :
  getEffectiveLevel module_name w ≤ DEBUG →
  well_formed data = true → processed data = header :: rest →
  outcome (convert_data_into_graph module_name data) w = inr g →
  stderr (after (convert_data_into_graph module_name data) w)
  = stderr w
    ++ ((header_message header :: (edge_message <$> rest)
         ++ [py "Total number of nodes: " ++ str_of_nat (number_of_nodes g);
             py "Total number of edges: " ++ str_of_nat (number_of_edges g)])
        ≫= replicate (handlers (getLogger module_name w))).
Proof.
  intros Hlvl Hwf Hproc Hout. rewrite convert_outcome in Hout.
  rewrite convert_after. cbn [stderr with_stderr]. f_equal.
  assert (Hon : ∀ lvl, DEBUG ≤ lvl → isEnabledFor module_name lvl w = true).
  { intros lvl Hl. unfold isEnabledFor. apply N.leb_le. lia. }
  unfold well_formed in Hwf. rewrite Hproc in Hwf.
  apply andb_true_iff in Hwf as [Hh Hrest].
  destruct (three_tokens_unpack _ Hh) as [t Ht].
  unfold convert_log. rewrite Hout, Hproc.
  unfold enumerate. cbn [enumerate_from loop_log Nat.eqb]. rewrite Ht.
  rewrite loop_log_edge_lines_ok by done.
  rewrite written_all_enabled.
  - f_equal. unfold totals_messages.
    rewrite fmap_app, !fmap_cons, <- list_fmap_compose. reflexivity.
  - intros lvl msg Hin. apply Hon.
    apply elem_of_app in Hin as [Hin|Hin].
    + apply elem_of_cons in Hin as [Heq|Hin].
      { injection Heq as -> _. by compute. }
      apply list_elem_of_fmap in Hin as (? & Heq & _).
      injection Heq as -> _. done.
    + unfold totals_messages in Hin.
      apply elem_of_cons in Hin as [Heq|Hin].
      { injection Heq as -> _. by compute. }
      apply list_elem_of_singleton in Hin. injection Hin as -> _. by compute.
Qed.

(** X4. With the logger at the module's level, a call that raises has written
    the expectation of the header, if the header was read, and nothing
    else: the totals are written by calls that return only. *)
Theorem convert_log_when_raising (data : str) (w : World) (e : exn) :
  DEBUG < getEffectiveLevel module_name w → getEffectiveLevel module_name w ≤ INFO →
  outcome (convert_data_into_graph module_name data) w = inl e →
  ∃ header rest, processed data = header :: rest ∧
    stderr (after (convert_data_into_graph module_name data) w)
    = stderr w
      ++ (if three_tokens header
          then replicate (handlers (getLogger module_name w)) (header_message header)
          else []).
Proof.
  intros Hlo Hhi Hout. rewrite convert_outcome in Hout.
  rewrite convert_after. cbn [stderr with_stderr].
  assert (Hdebug : isEnabledFor module_name DEBUG w = false).
  { unfold isEnabledFor. by apply N.leb_gt. }
  assert (Hinfo : isEnabledFor module_name INFO w = true).
  { unfold isEnabledFor. by apply N.leb_le. }
  rewrite (parse_error_no_totals data e Hout).
  unfold parse in Hout.
  destruct (processed data) as [|header rest]; [done|].
  exists header, rest. split; [done|]. f_equal.
  unfold enumerate. cbn [enumerate_from loop_log Nat.eqb]. unfold three_tokens.
  destruct (split SP header) as [|a [|b [|c [|]]]]; try done.
  cbn [unpack3]. rewrite written_cons, Hinfo, written_edge_lines_quiet by done.
  by rewrite app_nil_r.
Qed.
End LogProperties.

(** ** logging_utils.py *)

Section LoggingUtils.
Implicit Types (name : str) (w : World).






End LoggingUtils.

(** ** The graph a call returns *)

Section GraphProperties.
Context `{Runtime}.
Variable module_name : str.

Lemma endpoints_of_lines_length lines ps :
  endpoints_of_lines lines = inr ps → length ps = length lines.
Proof.
  revert ps. induction lines as [|line lines IH]; intros ps.
  { by intros [= <-]. }
  cbn [endpoints_of_lines].
  destruct (endpoints_of_line line); [done|].
  destruct (endpoints_of_lines lines) as [|ps']; [done|].
  intros [= <-]. simpl. f_equal. by apply IH.
Qed.

Lemma endpoints_of_line_inr_ok line p :
  endpoints_of_line line = inr p → edge_line_ok line = true.
Proof.
  unfold endpoints_of_line, edge_line_ok, is_int.
  destruct (split SP line) as [|u [|v [|wt [|]]]]; try done. cbn [unpack3].
  destruct (int u); [done|]. by destruct (int v).
Qed.

Lemma endpoints_of_lines_inr_ok lines ps :
  endpoints_of_lines lines = inr ps → forallb edge_line_ok lines = true.
Proof.
  revert ps. induction lines as [|line lines IH]; intros ps; [done|].
  cbn [endpoints_of_lines forallb].
  destruct (endpoints_of_line line) as [|p] eqn:El; [done|].
  destruct (endpoints_of_lines lines) as [|ps']; [done|].
  intros _. rewrite (endpoints_of_line_inr_ok _ _ El). by eapply IH.
Qed.

(** A graph that is returned was built from the pairs of the edge lines,
    all of which parsed. *)
Lemma parse_inr data g :
  parse data = inr g →
  well_formed data = true ∧
  g = add_edges (to_nodes <$> parsed_pairs data) empty_graph ∧
  length (parsed_pairs data) = length (edge_lines data).
Proof.
  intros Hp.
  assert (Hwf : well_formed data = true).
  { unfold parse in Hp. unfold well_formed.
    destruct (processed data) as [|header rest]; [done|].
    destruct (unpack3 (split SP header)) as [|t] eqn:Eh; [done|].
    destruct (endpoints_of_lines rest) as [|ps] eqn:Er; [done|].
    rewrite (endpoints_of_lines_inr_ok _ _ Er), andb_true_r.
    unfold three_tokens. apply bool_decide_eq_true.
    destruct t as [[a b] c]. by rewrite (unpack3_inr _ _ _ _ Eh). }
  split; [done|].
  destruct (parse_well_formed data Hwf) as [Hparse Hlen].
  split; [congruence | done].
Qed.

Lemma elem_of_add_edges_nodes (es : list (Z * Z)) n :
  n ∈ nodes (add_edges es empty_graph) ↔ ∃ p, p ∈ es ∧ (n = p.1 ∨ n = p.2).
Proof.
  rewrite add_edges_nodes.
  change (nodes empty_graph) with (∅ : gset Z).
  rewrite union_empty_r_L, elem_of_list_to_set, list_elem_of_bind.
  split; intros (p & Hp & Hin).
  - exists p. split; [done|]. set_solver.
  - exists p. split; [|done]. set_solver.
Qed.

Lemma elem_of_add_edges_neighbors (es : list (Z * Z)) u v :
  v ∈ neighbors (_adj (add_edges es empty_graph)) u ↔ (u, v) ∈ es ∨ (v, u) ∈ es.
Proof.
  rewrite add_edges_neighbors by done.
  unfold neighbors at 1. simpl. set_solver.
Qed.

Lemma size_list_to_set_Z_le (l : list Z) :
  (size (list_to_set l : gset Z) ≤ length l)%nat.
Proof.
  induction l as [|x l IH].
  - rewrite list_to_set_nil, size_empty. simpl. lia.
  - rewrite list_to_set_cons, size_add. simpl. case_decide; lia.
Qed.

Lemma graph_ext (g1 g2 : Graph) :
  dom (_adj g1) = _node g1 → dom (_adj g2) = _node g2 →
  _node g1 = _node g2 →
  (∀ n, neighbors (_adj g1) n = neighbors (_adj g2) n) →
  g1 = g2.
Proof.
  destruct g1 as [n1 a1], g2 as [n2 a2]. simpl.
  intros Hd1 Hd2 Hn Hnb. subst n1 n2. f_equal; [done|].
  apply map_eq. intros n. specialize (Hnb n). unfold neighbors in Hnb.
  destruct (a1 !! n) as [s1|] eqn:E1, (a2 !! n) as [s2|] eqn:E2; simpl in Hnb.
  - by subst.
  - exfalso. apply not_elem_of_dom in E2. apply E2. rewrite <- Hn.
    apply elem_of_dom. eauto.
  - exfalso. apply not_elem_of_dom in E1. apply E1. rewrite Hn.
    apply elem_of_dom. eauto.
  - done.
Qed.

Lemma undirected_cases p q :
  undirected p = undirected q ↔ p = q ∨ p = (q.2, q.1).
Proof.
  destruct p as [a b], q as [c d]. unfold undirected. simpl. split.
  - intros [= Hmin Hmax].
    assert ((a = c ∧ b = d) ∨ (a = d ∧ b = c)) as [[-> ->]|[-> ->]] by lia;
      auto.
  - intros [[= -> ->] | [= -> ->]]; [done|]. f_equal; lia.
Qed.

Lemma elem_of_undirected (es : list (Z * Z)) u v :
  undirected (u, v) ∈ undirected <$> es ↔ (u, v) ∈ es ∨ (v, u) ∈ es.
Proof.
  rewrite list_elem_of_fmap. split.
  - intros (p & Hp & Hin). symmetry in Hp.
    apply undirected_cases in Hp as [->| ->]; [by left | by right].
  - intros [Hin|Hin]; [by exists (u, v)|].
    exists (v, u). split; [|done].
    apply undirected_cases. by right.
Qed.

(** The graph built from a list of pairs depends on the set of their
    undirected edges only. *)
Lemma add_edges_same_set (es es' : list (Z * Z)) :
  (list_to_set (undirected <$> es) : gset (Z * Z)) = list_to_set (undirected <$> es') →
  add_edges es empty_graph = add_edges es' empty_graph.
Proof.
  intros Hset.
  assert (Hmem : ∀ u v, ((u, v) ∈ es ∨ (v, u) ∈ es) ↔ ((u, v) ∈ es' ∨ (v, u) ∈ es')).
  { intros u v. rewrite <- !elem_of_undirected.
    rewrite <- !(elem_of_list_to_set (C := gset (Z * Z))). by rewrite Hset. }
  pose proof (add_edges_consistent es _ empty_graph_consistent) as [Hd1 _].
  pose proof (add_edges_consistent es' _ empty_graph_consistent) as [Hd2 _].
  apply graph_ext; [done | done | |].
  - apply set_eq. intros n.
    change (n ∈ nodes (add_edges es empty_graph)
            ↔ n ∈ nodes (add_edges es' empty_graph)).
    rewrite !elem_of_add_edges_nodes. split.
    + intros ([a b] & Hin & Hn). simpl in Hn.
      destruct (proj1 (Hmem a b) (or_introl Hin)) as [Hin'|Hin'].
      * exists (a, b). done.
      * exists (b, a). split; [done|]. simpl. tauto.
    + intros ([a b] & Hin & Hn). simpl in Hn.
      destruct (proj2 (Hmem a b) (or_introl Hin)) as [Hin'|Hin'].
      * exists (a, b). done.
      * exists (b, a). split; [done|]. simpl. tauto.
  - intros n. apply set_eq. intros m.
    rewrite !elem_of_add_edges_neighbors. apply Hmem.
Qed.

Lemma parse_error data e : parse data = inl e → ∃ why, e = ValueError why.
Proof.
  unfold parse. destruct (processed data) as [|header rest]; [done|].
  destruct (unpack3 (split SP header)) as [e'|t] eqn:Eh.
  { intros [= <-]. by eapply unpack3_error. }
  destruct (endpoints_of_lines rest) as [e'|ps] eqn:Er; [|done].
  intros [= <-]. by eapply endpoints_of_lines_error.
Qed.

Lemma length_endpoints (es : list (Z * Z)) :
  length (es ≫= λ e, [e.1; e.2]) = (2 * length es)%nat.
Proof.
  induction es as [|e es IH]; [done|].
  rewrite bind_cons, length_app, IH. simpl. lia.
Qed.

(** X7. The call returns a graph for the well-formed texts, and for no others:
    on every other text it raises [ValueError]. *)
Theorem returns_iff_well_formed (data : str) (w : World) :
  if well_formed data
  then ∃ g, outcome (convert_data_into_graph module_name data) w = inr g
  else ∃ why, outcome (convert_data_into_graph module_name data) w
              = inl (ValueError why).
Proof.
  rewrite convert_outcome. destruct (well_formed data) eqn:Hwf.
  - destruct (parse_well_formed data Hwf) as [-> _]. eauto.
  - destruct (parse data) as [e|g] eqn:Hp.
    + destruct (parse_error data e Hp) as [why ->]. eauto.
    + destruct (parse_inr data g Hp) as [Hwf' _]. congruence.
Qed.

(** X8. The nodes of the returned graph are the endpoints of its edges: no
    node is without a neighbour, whatever node count the header declares,
    and both ends of every edge are nodes. *)
Theorem nodes_are_endpoints (data : str) (w : World) (g : Graph) (n : Z) :
  outcome (convert_data_into_graph module_name data) w = inr g →
  n ∈ nodes g ↔ ∃ m, has_edge g n m = true.
Proof.
  rewrite convert_outcome. intros Hp.
  destruct (parse_inr data g Hp) as (_ & -> & _).
  set (es := to_nodes <$> parsed_pairs data).
  rewrite elem_of_add_edges_nodes. unfold has_edge. split.
  - intros ([a b] & Hin & [-> | ->]); simpl.
    + exists b. apply bool_decide_eq_true, elem_of_add_edges_neighbors. by left.
    + exists a. apply bool_decide_eq_true, elem_of_add_edges_neighbors. by right.
  - intros (m & Hm%bool_decide_eq_true).
    apply elem_of_add_edges_neighbors in Hm as [Hin|Hin].
    + exists (n, m). eauto.
    + exists (m, n). eauto.
Qed.

(** X9. The returned graph is undirected: an edge from a to b is an edge
    from b to a. *)
Theorem has_edge_symmetric (data : str) (w : World) (g : Graph) (a b : Z) :
  outcome (convert_data_into_graph module_name data) w = inr g →
  has_edge g a b = has_edge g b a.
Proof.
  rewrite convert_outcome. intros Hp.
  destruct (parse_consistent data g Hp) as [_ Hsym].
  unfold has_edge. apply bool_decide_ext. split; apply Hsym.
Qed.

(** X10. The returned graph has at most twice as many nodes as edges, and so at
    most twice as many nodes as the text has edge lines. *)
Theorem node_count_bound (data : str) (w : World) (g : Graph) :
  outcome (convert_data_into_graph module_name data) w = inr g →
  (number_of_nodes g ≤ 2 * number_of_edges g)%nat ∧
  (number_of_nodes g ≤ 2 * length (edge_lines data))%nat.
Proof.
  rewrite convert_outcome. intros Hp.
  destruct (parse_inr data g Hp) as (_ & -> & Hlen).
  set (es := to_nodes <$> parsed_pairs data).
  assert (Hes : length es = length (edge_lines data))
    by (unfold es; by rewrite length_fmap).
  assert (Hedges : (number_of_edges (add_edges es empty_graph) ≤ length es)%nat).
  { rewrite number_of_edges_reachable.
    rewrite add_edges_edges by apply empty_graph_consistent.
    rewrite empty_graph_edges, union_empty_r_L.
    rewrite <- (length_fmap undirected es). apply size_list_to_set_le. }
  assert (Hnodes : (number_of_nodes (add_edges es empty_graph)
                    ≤ 2 * number_of_edges (add_edges es empty_graph))%nat).
  { rewrite number_of_edges_reachable.
    set (g := add_edges es empty_graph).
    assert (Hsub : nodes g ⊆ list_to_set (elements (edges g) ≫= λ e, [e.1; e.2])).
    { intros n Hn. apply elem_of_list_to_set, list_elem_of_bind.
      apply elem_of_add_edges_nodes in Hn as ([a b] & Hin & Hn).
      exists (undirected (a, b)). split.
      - unfold undirected. simpl in *.
        destruct (Z.le_ge_cases a b);
          rewrite ?Z.min_l, ?Z.min_r, ?Z.max_l, ?Z.max_r by lia; set_solver.
      - apply elem_of_elements. unfold g.
        rewrite add_edges_edges by apply empty_graph_consistent.
        apply elem_of_union_l, elem_of_list_to_set, list_elem_of_fmap. eauto. }
    apply subseteq_size in Hsub. unfold number_of_nodes.
    change (_node g) with (nodes g).
    etrans; [exact Hsub|]. etrans; [apply size_list_to_set_Z_le|].
    rewrite length_endpoints. apply Nat.eq_le_incl. reflexivity. }
  split; [done | lia].
Qed.

(** X11. Two well-formed texts whose edge lines name the same set of endpoint
    pairs, in whatever order, orientation and number, and with whatever
    headers and weights, give the same graph. *)
Theorem same_pairs_same_graph (d1 d2 : str) (w1 w2 : World) :
  well_formed d1 = true → well_formed d2 = true →
  (list_to_set (undirected <$> parsed_pairs d1) : gset (Z * Z))
    = list_to_set (undirected <$> parsed_pairs d2) →
  outcome (convert_data_into_graph module_name d1) w1
    = outcome (convert_data_into_graph module_name d2) w2.
Proof.
  intros Hwf1 Hwf2 Hset. rewrite !convert_outcome.
  destruct (parse_well_formed d1 Hwf1) as [-> _].
  destruct (parse_well_formed d2 Hwf2) as [-> _].
  f_equal. apply add_edges_same_set.
  rewrite !undirected_to_nodes_list.
  assert (Hmem : ∀ q, q ∈ undirected <$> parsed_pairs d1
                      ↔ q ∈ undirected <$> parsed_pairs d2).
  { intros q. rewrite <- !(elem_of_list_to_set (C := gset (Z * Z))).
    by rewrite Hset. }
  apply set_eq. intros x. rewrite !elem_of_list_to_set, !list_elem_of_fmap.
  split; intros (q & -> & Hq); exists q; (split; [done|]); by apply Hmem.
Qed.

(** X12. Endpoints are not checked against any range: the nodes of the returned
    graph are all non-negative exactly when every endpoint of every edge
    line is at least 1. *)
Theorem nodes_nonnegative (data : str) (w : World) (g : Graph) :
  outcome (convert_data_into_graph module_name data) w = inr g →
  (∀ n, n ∈ nodes g → (0 ≤ n)%Z) ↔
  Forall (λ p, (1 ≤ p.1)%Z ∧ (1 ≤ p.2)%Z) (parsed_pairs data).
Proof.
  rewrite convert_outcome. intros Hp.
  destruct (parse_inr data g Hp) as (_ & -> & _).
  rewrite Forall_forall. split.
  - intros Hn [a b] Hin. simpl.
    assert (Ha : (a - 1)%Z ∈ nodes (add_edges (to_nodes <$> parsed_pairs data) empty_graph)).
    { apply elem_of_add_edges_nodes. exists (to_nodes (a, b)).
      split; [by apply list_elem_of_fmap_2 | by left]. }
    assert (Hb : (b - 1)%Z ∈ nodes (add_edges (to_nodes <$> parsed_pairs data) empty_graph)).
    { apply elem_of_add_edges_nodes. exists (to_nodes (a, b)).
      split; [by apply list_elem_of_fmap_2 | by right]. }
    apply Hn in Ha, Hb. lia.
  - intros Hall n Hn.
    apply elem_of_add_edges_nodes in Hn as (q & Hq & Hn).
    apply list_elem_of_fmap in Hq as ([a b] & -> & Hin).
    destruct (Hall _ Hin) as [Ha Hb]. simpl in *. lia.
Qed.
End GraphProperties.

(** ** The format of a line *)

Section LineFormat.
Context `{Runtime}.
Variable module_name : str.

Lemma split_length sep (s : str) :
  length (split sep s) = S (occurrences sep s).
Proof.
  unfold occurrences. induction s as [|c s IH]; [done|].
  cbn [split]. destruct (N.eqb_spec c sep) as [->|Hne].
  - rewrite filter_cons_True by done. simpl. by rewrite IH.
  - rewrite filter_cons_False by done.
    pose proof (split_not_nil sep s) as Hnil.
    destruct (split sep s); [done|]. exact IH.
Qed.

Lemma parse_bad_line data i line :
  processed data !! i = Some line → length (split SP line) ≠ 3%nat →
  ∃ why, parse data = inl (ValueError why).
Proof.
  intros Hi Hlen. unfold parse.
  destruct (processed data) as [|header rest]; [done|].
  destruct (unpack3 (split SP header)) as [e|t] eqn:Eh.
  { destruct (unpack3_error _ _ Eh) as [why ->]. eauto. }
  destruct i as [|j].
  - injection Hi as ->.
    destruct (unpack3_length _ Hlen) as [why Hwhy]. congruence.
  - change (rest !! j = Some line) in Hi.
    assert (∃ e, endpoints_of_line line = inl e) as [e He].
    { unfold endpoints_of_line.
      destruct (unpack3_length _ Hlen) as [why ->]. eauto. }
    destruct (endpoints_of_lines_bad _ _ _ _ Hi He) as [why ->]. eauto.
Qed.

(** X13. A processed line is split at its spaces, one by one: unless it has
    exactly two space characters the call raises [ValueError]. Tabs do not
    separate, and a doubled, leading or trailing space adds a token. *)
Theorem line_needs_two_spaces (data : str) (w : World) (i : nat) (line : str) :
  processed data !! i = Some line → occurrences SP line ≠ 2%nat →
  ∃ why, outcome (convert_data_into_graph module_name data) w
         = inl (ValueError why).
Proof.
  intros Hi Hocc. rewrite convert_outcome.
  apply (parse_bad_line data i line Hi).
  rewrite split_length. lia.
Qed.

Lemma split_snoc sep (c : N) (s : str) (pre : list str) (lst : str) :
  c ≠ sep → split sep s = pre ++ [lst] →
  split sep (s ++ [c]) = pre ++ [lst ++ [c]].
Proof.
  intros Hc. revert pre lst. induction s as [|x s IH]; intros pre lst Hs.
  - destruct pre as [|p [|]]; [|done|done]. injection Hs as <-. simpl.
    by destruct (N.eqb_spec c sep).
  - cbn [split app] in *. change ((x :: s) ++ [c]) with (x :: (s ++ [c])).
    cbn [split]. destruct (N.eqb_spec x sep) as [->|Hx].
    + destruct pre as [|p pre].
      { pose proof (split_not_nil sep s). injection Hs as ?. done. }
      injection Hs as <- Hs. by rewrite (IH pre lst Hs).
    + destruct (split sep s) as [|seg segs] eqn:Es.
      { by destruct (split_not_nil sep s). }
      destruct pre as [|p pre].
      * injection Hs as <- ->. by rewrite (IH [] seg eq_refl).
      * injection Hs as <- ->. by rewrite (IH (seg :: pre) lst eq_refl).
Qed.

Lemma unpack3_bad {A} (l : list A) :
  length l ≠ 3%nat →
  unpack3 l = inl (ValueError (if (length l <? 3)%nat
                               then not_enough_values 3 (length l)
                               else too_many_values 3)).
Proof. by destruct l as [|a [|b [|c [|]]]]. Qed.

Lemma unpack3_same_length {A} (l l' : list A) :
  length l = length l' → length l ≠ 3%nat → unpack3 l = unpack3 l'.
Proof.
  intros Hlen Hne. rewrite (unpack3_bad l Hne).
  rewrite (unpack3_bad l') by congruence. by rewrite Hlen.
Qed.

Lemma endpoints_of_line_cr line :
  endpoints_of_line (line ++ [CR]) = endpoints_of_line line.
Proof.
  pose proof (split_not_nil SP line) as Hnil.
  destruct (exists_last Hnil) as (pre & lst & Hs).
  assert (Hcr : split SP (line ++ [CR]) = pre ++ [lst ++ [CR]])
    by by apply split_snoc.
  unfold endpoints_of_line. rewrite Hs, Hcr.
  destruct (decide (length pre = 2%nat)) as [Hpre|Hpre].
  - by destruct pre as [|u [|v [|]]].
  - rewrite (unpack3_same_length (pre ++ [lst ++ [CR]]) (pre ++ [lst]));
      rewrite ?length_app; simpl; [done|lia|lia].
Qed.

Lemma endpoints_of_lines_cr lines :
  endpoints_of_lines ((λ s, s ++ [CR]) <$> lines) = endpoints_of_lines lines.
Proof.
  induction lines as [|line lines IH]; [done|].
  rewrite fmap_cons. cbn [endpoints_of_lines].
  by rewrite endpoints_of_line_cr, IH.
Qed.

Lemma header_cr header :
  match unpack3 (split SP (header ++ [CR])) with
  | inl e => unpack3 (split SP header) = inl e
  | inr _ => ∃ t, unpack3 (split SP header) = inr t
  end.
Proof.
  pose proof (split_not_nil SP header) as Hnil.
  destruct (exists_last Hnil) as (pre & lst & Hs).
  assert (Hcr : split SP (header ++ [CR]) = pre ++ [lst ++ [CR]])
    by by apply split_snoc.
  rewrite Hs, Hcr.
  destruct (decide (length pre = 2%nat)) as [Hpre|Hpre].
  - destruct pre as [|u [|v [|]]]; try done. simpl. eauto.
  - rewrite (unpack3_same_length (pre ++ [lst ++ [CR]]) (pre ++ [lst]));
      rewrite ?length_app; simpl; [|lia|lia].
    rewrite unpack3_bad; [done|]. rewrite length_app. simpl. lia.
Qed.

(** X14. A carriage return at the end of every line, as in a text with CR LF
    line ends, changes neither the graph returned nor the exception
    raised: it ends up in the last token of its line, which is not read. *)
Theorem carriage_returns_ignored (segs : list str) (x : str) (w w' : World) :
  Forall (λ s, LF ∉ s) segs → LF ∉ x →
  outcome (convert_data_into_graph module_name
             (join LF (((λ s, s ++ [CR]) <$> segs) ++ [x]))) w
  = outcome (convert_data_into_graph module_name (join LF (segs ++ [x]))) w'.
Proof.
  intros Hsegs Hx. rewrite !convert_outcome. unfold parse.
  rewrite !processed_join; [|done|done| |done].
  - destruct segs as [|header rest]; [done|].
    rewrite fmap_cons. pose proof (header_cr header) as Hh.
    rewrite endpoints_of_lines_cr.
    destruct (unpack3 (split SP (header ++ [CR]))) as [e|t].
    + by rewrite Hh.
    + by destruct Hh as [t' ->].
  - apply Forall_fmap. eapply Forall_impl; [exact Hsegs|].
    intros s Hs [?|Hin%list_elem_of_singleton]%elem_of_app; done.
Qed.

Lemma numeral_without (c : N) ds :
  (c < 48 ∨ 57 < c) → Forall (λ d, d < 10) ds → c ∉ numeral ds.
Proof.
  intros Hc Hds Hin. unfold numeral in Hin.
  apply list_elem_of_fmap in Hin as (d & -> & Hd).
  rewrite Forall_forall in Hds. specialize (Hds d Hd). simpl in Hds. lia.
Qed.

(** X15. An edge line of two decimal numerals, of one to 640 digits each, and
    a third token is read as the numbers the numerals write: the text of a
    header and that line gives the graph of the one edge between them,
    each less one. *)
Theorem numerals_are_endpoints (header wt : str) (us vs : list N) (w : World) :
  LF ∉ header → three_tokens header = true →
  Forall (λ d, d < 10) us → us ≠ [] → (length us ≤ 640)%nat →
  Forall (λ d, d < 10) vs → vs ≠ [] → (length vs ≤ 640)%nat →
  SP ∉ wt → LF ∉ wt →
  outcome (convert_data_into_graph module_name
             (join LF [header; join SP [numeral us; numeral vs; wt]; []])) w
  = inr (add_edge (Z.of_N (numeral_value 0 us) - 1)
                  (Z.of_N (numeral_value 0 vs) - 1) empty_graph).
Proof.
  intros Hh Ht Hus Hune Hulen Hvs Hvne Hvlen Hsp Hlf.
  rewrite convert_outcome. unfold parse.
  change [header; join SP [numeral us; numeral vs; wt]; []]
    with ([header; join SP [numeral us; numeral vs; wt]] ++ [[]]).
  rewrite processed_join.
  - destruct (three_tokens_unpack _ Ht) as [t ->].
    cbn [endpoints_of_lines]. unfold endpoints_of_line.
    change [numeral us; numeral vs; wt] with ([numeral us; numeral vs] ++ [wt]).
    rewrite split_join.
    + cbn [app unpack3]. by rewrite !int_numeral.
    + repeat constructor; apply numeral_without; (done || (left; by compute)).
    + done.
  - repeat constructor; [done|]. simpl.
    intros [Hin|[?|[Hin|[?|Hin]%elem_of_cons]%elem_of_app]%elem_of_cons]%elem_of_app.
    + revert Hin. apply numeral_without; [left; by compute | done].
    + done.
    + revert Hin. apply numeral_without; [left; by compute | done].
    + done.
    + done.
  - by intros ?%elem_of_nil.
Qed.
End LineFormat.

(** ** The script *)

Section Script.
Context `{Runtime}.
Variable module_name : str.

Lemma read_data_from_url_outcome url w :
  outcome (read_data_from_url url) w
  = match internet w (length (requests w)) url with
    | inl e => inl e
    | inr resp => inr (if (status_code resp =? 200)%Z
                       then Some (text resp) else None)
    end.
Proof.
  unfold read_data_from_url, outcome, bind, requests_get.
  destruct (internet w (length (requests w)) url) as [e|resp]; [done|].
  by destruct (status_code resp =? 200)%Z.
Qed.

Lemma read_data_from_url_after url w :
  after (read_data_from_url url) w = with_requests (requests w ++ [url]) w.
Proof.
  unfold read_data_from_url, after, bind, requests_get.
  destruct (internet w (length (requests w)) url) as [e|resp]; [done|].
  by destruct (status_code resp =? 200)%Z.
Qed.

(** X16. The script sends one request, to the fixed URL. A failure of the
    request is raised as it is; a response with another status than 200
    makes the script raise [AttributeError], since the missing body is
    passed on to the parser; a body that is not well-formed raises the
    parser's exception; otherwise the script ends normally. *)
Theorem main_outcome (w : World) :
  requests (after (main module_name) w) = requests w ++ [URL] ∧
  outcome (main module_name) w
  = match internet w (length (requests w)) URL with
    | inl e => inl e
    | inr resp =>
        if (status_code resp =? 200)%Z
        then match parse (text resp) with
             | inl e => inl e
             | inr _ => inr tt
             end
        else inl (AttributeError (py "split"))
    end.
Proof.
  unfold main. split.
  - rewrite after_bind, read_data_from_url_outcome, read_data_from_url_after.
    destruct (internet w (length (requests w)) URL) as [e|resp]; [done|].
    destruct (status_code resp =? 200)%Z; [|done].
    rewrite after_bind, convert_outcome, convert_after.
    by destruct (parse (text resp)).
  - rewrite outcome_bind, read_data_from_url_outcome.
    destruct (internet w (length (requests w)) URL) as [e|resp]; [done|].
    destruct (status_code resp =? 200)%Z; [|done].
    rewrite outcome_bind, convert_outcome.
    by destruct (parse (text resp)).
Qed.
End Script.

(** ** These properties at concrete texts *)

Section MoreExamples.
#[local] Existing Instance latin1.

Lemma convert_log_at_info_witness :
  stderr (after (convert_data_into_graph (py "reader")
                   (py "3 2 0\n1 2 5\n2 3 7\n")) imported)
  = [py "Expect number of nodes 3 and edges 2";
     py "Total number of nodes: 3";
     py "Total number of edges: 2"].
Proof.
  rewrite (convert_log_at_info (py "reader") (py "3 2 0\n1 2 5\n2 3 7\n") imported
             (add_edges [(0, 1); (1, 2)]%Z empty_graph)).
  - vm_compute. reflexivity.
  - decided.
  - decided.
  - vm_compute. reflexivity.
Defined.

Lemma convert_log_at_debug_witness :
  stderr (after (convert_data_into_graph (py "reader")
                   (py "3 2 0\n1 2 5\n2 3 7\n")) verbose)
  = [py "Expect number of nodes 3 and edges 2";
     py "Expect number of nodes 3 and edges 2";
     py "Added an edge from u: 1 to  v: 2 with weight 5";
     py "Added an edge from u: 1 to  v: 2 with weight 5";
     py "Added an edge from u: 2 to  v: 3 with weight 7";
     py "Added an edge from u: 2 to  v: 3 with weight 7";
     py "Total number of nodes: 3"; py "Total number of nodes: 3";
     py "Total number of edges: 2"; py "Total number of edges: 2"].
Proof.
  rewrite (convert_log_at_debug (py "reader") (py "3 2 0\n1 2 5\n2 3 7\n")
             (py "3 2 0") [py "1 2 5"; py "2 3 7"] verbose
             (add_edges [(0, 1); (1, 2)]%Z empty_graph)).
  - vm_compute. reflexivity.
  - decided.
  - vm_compute. reflexivity.
  - reflexivity.
  - vm_compute. reflexivity.
Defined.

Lemma convert_log_when_raising_witness :
  ∃ header rest, processed (py "3 2 0\n1 x 5\n2 3 7\n") = header :: rest ∧
    stderr (after (convert_data_into_graph (py "reader")
                     (py "3 2 0\n1 x 5\n2 3 7\n")) imported)
    = stderr imported
      ++ (if three_tokens header
          then replicate (handlers (getLogger (py "reader") imported))
                 (header_message header)
          else []).
Proof.
  apply (convert_log_when_raising (py "reader") (py "3 2 0\n1 x 5\n2 3 7\n")
           imported (ValueError (invalid_literal (py "x")))).
  - decided.
  - decided.
  - vm_compute. reflexivity.
Defined.


Lemma nodes_are_endpoints_witness :
  2%Z ∈ nodes (add_edges [(0, 1); (1, 2)]%Z empty_graph) ↔
  ∃ m, has_edge (add_edges [(0, 1); (1, 2)]%Z empty_graph) 2 m = true.
Proof.
  apply (nodes_are_endpoints (py "reader") (py "3 2 0\n1 2 5\n2 3 7\n") imported).
  vm_compute. reflexivity.
Defined.

Lemma has_edge_symmetric_witness :
  has_edge (add_edges [(0, 1); (1, 2)]%Z empty_graph) 1 2
  = has_edge (add_edges [(0, 1); (1, 2)]%Z empty_graph) 2 1.
Proof.
  apply (has_edge_symmetric (py "reader") (py "3 2 0\n1 2 5\n2 3 7\n") imported).
  vm_compute. reflexivity.
Defined.

Lemma node_count_bound_witness :
  (number_of_nodes (add_edges [(0, 1); (1, 2)]%Z empty_graph)
   ≤ 2 * number_of_edges (add_edges [(0, 1); (1, 2)]%Z empty_graph))%nat ∧
  (number_of_nodes (add_edges [(0, 1); (1, 2)]%Z empty_graph)
   ≤ 2 * length (edge_lines (py "3 2 0\n1 2 5\n2 3 7\n")))%nat.
Proof.
  apply (node_count_bound (py "reader") (py "3 2 0\n1 2 5\n2 3 7\n") imported).
  vm_compute. reflexivity.
Defined.

Lemma same_pairs_same_graph_witness :
  outcome (convert_data_into_graph (py "reader")
             (py "3 2 0\n1 2 5\n2 3 7\n")) imported
  = outcome (convert_data_into_graph (py "reader")
               (py "9 9 9\n3 2 1\n2 1 1\n2 3 4\n")) verbose.
Proof.
  apply (same_pairs_same_graph (py "reader")).
  - vm_compute. reflexivity.
  - vm_compute. reflexivity.
  - vm_compute. reflexivity.
Defined.

Lemma nodes_nonnegative_witness :
  (∀ n, n ∈ nodes (add_edges [(-1, 1)]%Z empty_graph) → (0 ≤ n)%Z) ↔
  Forall (λ p, (1 ≤ p.1)%Z ∧ (1 ≤ p.2)%Z) (parsed_pairs (py "2 1 0\n0 2 5\n")).
Proof.
  apply (nodes_nonnegative (py "reader") (py "2 1 0\n0 2 5\n") imported).
  vm_compute. reflexivity.
Defined.

Lemma line_needs_two_spaces_witness :
  ∃ why, outcome (convert_data_into_graph (py "reader")
                    (py "3 2 0\n1  2 5\n")) imported
         = inl (ValueError why).
Proof.
  apply (line_needs_two_spaces (py "reader") (py "3 2 0\n1  2 5\n") imported
           1 (py "1  2 5")).
  - reflexivity.
  - vm_compute. discriminate.
Defined.

Lemma carriage_returns_ignored_witness :
  outcome (convert_data_into_graph (py "reader")
             (join LF (((λ s, s ++ [CR]) <$> [py "3 2 0"; py "1 2 5"]) ++ [[]])))
          imported
  = outcome (convert_data_into_graph (py "reader")
               (join LF ([py "3 2 0"; py "1 2 5"] ++ [[]]))) imported.
Proof.
  apply (carriage_returns_ignored (py "reader") [py "3 2 0"; py "1 2 5"] []
           imported imported); decided.
Defined.

Lemma numerals_are_endpoints_witness :
  outcome (convert_data_into_graph (py "reader")
             (join LF [py "20 1 0"; join SP [numeral [1; 2]; numeral [7]; py "x"]; []]))
          imported
  = inr (add_edge (Z.of_N (numeral_value 0 [1; 2]) - 1)
                  (Z.of_N (numeral_value 0 [7]) - 1) empty_graph).
Proof.
  apply (numerals_are_endpoints (py "reader") (py "20 1 0") (py "x") [1; 2] [7]
           imported);
    first [decided | vm_compute; reflexivity | discriminate | simpl; lia].
Defined.
End MoreExamples.
